(** * Task manager: storage backends and the eight task operations

    A shallow embedding of [src/types.ts], [src/storage.ts],
    [src/storage-db.ts], [src/storage-router.ts], [src/tools.ts] and the
    tool dispatcher of [src/index.ts].

    Conventions of the embedding.
    - A JavaScript string is a [string]: a sequence of code units.  The
      decorations of the user-visible texts are written as the bytes of
      their UTF-8 encoding; nothing proved here looks inside them.
    - An optional field ([description?: string]) is an [option string];
      [None] stands for both [undefined] and [null].
    - Asynchronous functions are computations of the monad [Async]: they
      read the ambient process ([Env]: the clock at its readings, the id
      generator, environment variables), thread the outside world
      ([World]: the snapshot document, the database table, the console)
      and may throw.
    - Case conversion, collation and the rendering of timestamps rest on
      the Unicode and locale data of the runtime; they are the fields of
      the class [Intl], which every statement about the operations is
      proved for whatever instance.
    - Objects mutated in place ([task.status = ...] on an element of
      [storage.tasks]) are updated at their index in the array. *)

From Stdlib Require Import String Ascii ZArith List Lia Bool.
From Stdlib Require Import Sorted Permutation.
From Stdlib Require Import DecimalString Decimal.
From Stdlib Require Import Floats.SpecFloat.
From Stdlib Require Import QArith Qpower Lqa.
From stdpp Require Import gmap strings.

Import ListNotations.
Open Scope string_scope.

(** ** The JavaScript runtime the program relies on *)

Module JS.

Local Open Scope Z_scope.

(** Truthiness of an optional string: [undefined], [null] and the empty
    string are falsy. *)
Definition truthy (o : option string) : bool :=
  match o with
  | Some s => negb (String.eqb s EmptyString)
  | None => false
  end.

(** [a || b] on strings that may be undefined. *)
Definition orElse (o : option string) (d : string) : string :=
  match o with
  | Some s => if String.eqb s EmptyString then d else s
  | None => d
  end.

(** [s.startsWith(p)]. *)
Definition startsWith (s p : string) : bool := String.prefix p s.

(** [s.includes(q)]. *)
Fixpoint includes (s q : string) : bool :=
  String.prefix q s ||
  match s with
  | EmptyString => false
  | String _ s' => includes s' q
  end.

(** [s.toLowerCase()] as far as the storage router needs it: the result
    is compared with the ASCII words ["database"] and ["db"] only, and the
    Unicode mapping yields an ASCII letter from its capital alone (and a
    [k] from the Kelvin sign, an [i] from the dotted capital I, letters
    that stand in neither word), so lowering the capitals A to Z and
    keeping every other code unit decides those comparisons as the full
    mapping does.  The operations on tasks, which
    compare arbitrary texts, use the case conversion of [Intl]. *)
Definition lowerChar (c : ascii) : ascii :=
  let n := nat_of_ascii c in
  if (65 <=? n)%nat && (n <=? 90)%nat then ascii_of_nat (n + 32) else c.

Fixpoint toLowerCase (s : string) : string :=
  match s with
  | EmptyString => EmptyString
  | String c s' => String (lowerChar c) (toLowerCase s')
  end.

(** The relational operators [<], [<=], [>=] on strings compare code
    units lexicographically. *)
Definition lt (a b : string) : bool := String.ltb a b.
Definition le (a b : string) : bool := String.leb a b.
Definition ge (a b : string) : bool := String.leb b a.

(** [s.split(sep)[0]] for a one-unit separator. *)
Fixpoint splitHead (sep : ascii) (s : string) : string :=
  match s with
  | EmptyString => EmptyString
  | String c s' => if Ascii.eqb c sep then EmptyString else String c (splitHead sep s')
  end.

(** [String(n)] and template interpolation of a non-negative integer. *)
Definition showN (n : N) : string := NilZero.string_of_uint (N.to_uint n).
Definition showNat (n : nat) : string := showN (N.of_nat n).

(** [String(n).padStart(w, "0")]. *)
Fixpoint zeros (k : nat) : string :=
  match k with
  | O => EmptyString
  | S k' => String "0" (zeros k')
  end.

Definition pad (w : nat) (n : Z) : string :=
  let s := showN (Z.to_N n) in
  zeros (w - String.length s)%nat +:+ s.

(** *** [Date]: the proleptic Gregorian calendar in UTC *)

Definition msPerDay : Z := 86400000.

(** Day number since 1970-01-01 and the millisecond within that day. *)
Definition epochDay (ms : Z) : Z := ms / msPerDay.
Definition msOfDay (ms : Z) : Z := ms mod msPerDay.

(** Year, month and day of a day number. *)
Definition civil (days : Z) : Z * Z * Z :=
  let z := days + 719468 in
  let era := z / 146097 in
  let doe := z - era * 146097 in
  let yoe := (doe - doe / 1460 + doe / 36524 - doe / 146096) / 365 in
  let doy := doe - (365 * yoe + yoe / 4 - yoe / 100) in
  let mp := (5 * doy + 2) / 153 in
  let d := doy - (153 * mp + 2) / 5 + 1 in
  let m := if mp <? 10 then mp + 3 else mp - 9 in
  let y := yoe + era * 400 + (if m <=? 2 then 1 else 0) in
  (y, m, d).

(** The year of an ISO timestamp: four digits from 0 to 9999, a sign
    and six digits outside. *)
Definition isoYear (y : Z) : string :=
  if (0 <=? y) && (y <=? 9999) then pad 4 y
  else if y <? 0 then "-" +:+ pad 6 (- y)
  else "+" +:+ pad 6 y.

(** The [YYYY-MM-DD] part of an ISO timestamp. *)
Definition isoDate (days : Z) : string :=
  let '(y, m, d) := civil days in
  isoYear y +:+ "-" +:+ pad 2 m +:+ "-" +:+ pad 2 d.

(** [new Date(ms).toISOString()]. *)
Definition toISOString (ms : Z) : string :=
  let t := msOfDay ms in
  isoDate (epochDay ms) +:+ "T" +:+ pad 2 (t / 3600000) +:+ ":" +:+
  pad 2 (t / 60000 mod 60) +:+ ":" +:+ pad 2 (t / 1000 mod 60) +:+ "." +:+
  pad 3 (t mod 1000) +:+ "Z".

(** *** Numbers: IEEE 754 binary64 *)

Definition prec : Z := 53.
Definition emax : Z := 1024.

(** The number that holds an array length. *)
Definition number (n : nat) : spec_float :=
  binary_normalize prec emax (Z.of_nat n) 0 false.

Definition div (x y : spec_float) : spec_float := SFdiv prec emax x y.
Definition mul (x y : spec_float) : spec_float := SFmul prec emax x y.

(** [x.toFixed(1)] for a number below 1e21: the integer [n] for which
    [n / 10 - x] is closest to zero, the larger one on a tie, written
    with its last digit behind the point. *)
Definition tenths (m : positive) (e : Z) : Z :=
  match e with
  | Zneg p => (20 * Zpos m + 2 ^ Zpos p) / (2 * 2 ^ Zpos p)
  | _ => 10 * Zpos m * 2 ^ e
  end.

Definition fixed1 (n : Z) : string :=
  showN (Z.to_N (n / 10)) +:+ "." +:+ showN (Z.to_N (n mod 10)).

Definition toFixed1 (x : spec_float) : string :=
  match x with
  | S754_zero s => "0.0"
  | S754_finite s m e =>
      let t := fixed1 (tenths m e) in
      if s && negb (tenths m e =? 0) then "-" +:+ t else t
  | S754_infinity s => if s then "-Infinity" else "Infinity"
  | S754_nan => "NaN"
  end.

(** *** [Array.prototype.sort]

    The sort is stable.  For a consistent comparator its result is the
    one sorted arrangement that keeps equal elements in their input
    order, which insertion from the right computes. *)
Section Sort.
Context {A : Type} (cmp : A -> A -> Z).

Fixpoint insertBy (x : A) (l : list A) : list A :=
  match l with
  | [] => [x]
  | y :: l' => if cmp x y <=? 0 then x :: l else y :: insertBy x l'
  end.

Definition sort (l : list A) : list A := fold_right insertBy [] l.
End Sort.

(** [arr.findIndex(p)]: the first index whose element satisfies [p];
    [None] is the source's [-1]. *)
Fixpoint findIndex {A : Type} (p : A -> bool) (l : list A) : option nat :=
  match l with
  | [] => None
  | x :: l' => if p x then Some O else option_map S (findIndex p l')
  end.

(** [arr.splice(i, 1)] leaves the array without its element [i]. *)
Fixpoint removeAt {A : Type} (i : nat) (l : list A) : list A :=
  match l, i with
  | [], _ => []
  | _ :: l', O => l'
  | x :: l', S i' => x :: removeAt i' l'
  end.

(** [/^\d{4}-\d{2}-\d{2}$/.test(s)]. *)
Definition isDigit (c : ascii) : bool :=
  let n := nat_of_ascii c in (48 <=? n)%nat && (n <=? 57)%nat.

Definition isHyphen (c : ascii) : bool := Ascii.eqb c "-".

Definition matchesDate (s : string) : bool :=
  match list_ascii_of_string s with
  | [y1; y2; y3; y4; h1; m1; m2; h2; d1; d2] =>
      isDigit y1 && isDigit y2 && isDigit y3 && isDigit y4 && isHyphen h1 &&
      isDigit m1 && isDigit m2 && isHyphen h2 && isDigit d1 && isDigit d2
  | _ => false
  end.

End JS.

(** Services of the runtime that rest on its Unicode and locale data.
    [toLowerCase] is [String.prototype.toLowerCase], the Unicode case
    conversion of a whole string; nothing is assumed of it.
    [localeCompare] is the collation of the host's default locale and
    [toLocaleString] its rendering of a timestamp; the program fixes
    neither.  What is used of a collation: it is a consistent comparator
    (a total preorder), and on two strings of the shape [YYYY-MM-DD] it
    orders as the code units do. *)
Class Intl := {
  toLowerCase : string -> string;
  localeCompare : string -> string -> Z;
  toLocaleString : string -> string;
  localeCompare_refl : forall a, localeCompare a a = 0%Z;
  localeCompare_antisym :
    forall a b, Z.sgn (localeCompare b a) = (- Z.sgn (localeCompare a b))%Z;
  localeCompare_trans :
    forall a b c,
      (localeCompare a b <= 0)%Z -> (localeCompare b c <= 0)%Z ->
      (localeCompare a c <= 0)%Z;
  localeCompare_dates :
    forall a b,
      JS.matchesDate a = true -> JS.matchesDate b = true ->
      ((localeCompare a b <=? 0)%Z = JS.le a b)
}.

(** ** The task model ([src/types.ts]) *)

Inductive Priority := low | medium | high.
Inductive Status := pending | in_progress | completed.

Definition Priority_eqb (a b : Priority) : bool :=
  match a, b with
  | low, low | medium, medium | high, high => true
  | _, _ => false
  end.

Definition Status_eqb (a b : Status) : bool :=
  match a, b with
  | pending, pending | in_progress, in_progress | completed, completed => true
  | _, _ => false
  end.

(** The strings the enumerations are written as. *)
Definition Priority_text (p : Priority) : string :=
  match p with low => "low" | medium => "medium" | high => "high" end.

Definition Status_text (s : Status) : string :=
  match s with
  | pending => "pending" | in_progress => "in_progress" | completed => "completed"
  end.

Record Task := {
  id : string;
  title : string;
  description : option string;
  priority : Priority;
  category : option string;
  dueDate : option string;
  status : Status;
  createdAt : string;
  completedAt : option string
}.

Record TaskStorage := {
  tasks : list Task;
  lastUpdated : string
}.

(** Assignments to the fields of a task. *)
Definition set_title (v : string) (t : Task) : Task :=
  {| id := id t; title := v; description := description t; priority := priority t;
     category := category t; dueDate := dueDate t; status := status t;
     createdAt := createdAt t; completedAt := completedAt t |}.

Definition set_description (v : option string) (t : Task) : Task :=
  {| id := id t; title := title t; description := v; priority := priority t;
     category := category t; dueDate := dueDate t; status := status t;
     createdAt := createdAt t; completedAt := completedAt t |}.

Definition set_priority (v : Priority) (t : Task) : Task :=
  {| id := id t; title := title t; description := description t; priority := v;
     category := category t; dueDate := dueDate t; status := status t;
     createdAt := createdAt t; completedAt := completedAt t |}.

Definition set_category (v : option string) (t : Task) : Task :=
  {| id := id t; title := title t; description := description t; priority := priority t;
     category := v; dueDate := dueDate t; status := status t;
     createdAt := createdAt t; completedAt := completedAt t |}.

Definition set_dueDate (v : option string) (t : Task) : Task :=
  {| id := id t; title := title t; description := description t; priority := priority t;
     category := category t; dueDate := v; status := status t;
     createdAt := createdAt t; completedAt := completedAt t |}.

Definition set_status (v : Status) (t : Task) : Task :=
  {| id := id t; title := title t; description := description t; priority := priority t;
     category := category t; dueDate := dueDate t; status := v;
     createdAt := createdAt t; completedAt := completedAt t |}.

Definition set_completedAt (v : option string) (t : Task) : Task :=
  {| id := id t; title := title t; description := description t; priority := priority t;
     category := category t; dueDate := dueDate t; status := status t;
     createdAt := createdAt t; completedAt := v |}.

(** ** Processes: environment, world and the [Async] monad *)

(** What a call reads from its process: the clock, in milliseconds since
    the epoch, the identifier [uuidv4()] hands out, and the environment
    variable [STORAGE_TYPE].  [clock] is what [new Date()] reads; [later]
    is what [Date.now()] reads where a function calls it after
    [new Date()] (getTaskStats does): a second reading, which need not
    fall in the same millisecond, nor on the same day. *)
Record Env := {
  clock : Z;
  later : Z;
  uuid : string;
  STORAGE_TYPE : option string
}.

(** The snapshot document [tasks.json]: missing, not readable as JSON, or
    holding a collection.  ([readJson]'s result is cast to [TaskStorage]
    unchecked; the embedding takes a readable document to be one.) *)
Inductive Document :=
| Absent
| Unreadable (error : string)
| Json (data : TaskStorage).

(** The world outside the process: the snapshot document, the rows of
    the [tasks] table keyed by their primary key, and what was written to
    the console. *)
Record World := {
  tasksFile : Document;
  tasksTable : gmap string Task;
  console : list string
}.

Inductive Exception :=
| ZodError (errors : list string)
| Error (message : string).

Inductive Completion (A : Type) :=
| Return (a : A)
| Throw (e : Exception).
Arguments Return {A} a.
Arguments Throw {A} e.

Definition Async (A : Type) : Type := Env -> World -> Completion A * World.

Definition ret {A} (a : A) : Async A := fun _ w => (Return a, w).

Definition bind {A B} (m : Async A) (k : A -> Async B) : Async B :=
  fun env w =>
    match m env w with
    | (Return a, w') => k a env w'
    | (Throw e, w') => (Throw e, w')
    end.

Definition throw {A} (e : Exception) : Async A := fun _ w => (Throw e, w).

(** [try { m } catch (error) { h error }]. *)
Definition try_catch {A} (m : Async A) (h : Exception -> Async A) : Async A :=
  fun env w =>
    match m env w with
    | (Return a, w') => (Return a, w')
    | (Throw e, w') => h e env w'
    end.

Declare Scope async_scope.
Delimit Scope async_scope with async.
Notation "x <- m ;; k" := (bind m (fun x => k))
  (at level 100, m at next level, right associativity) : async_scope.
Notation "m ;;; k" := (bind m (fun _ => k))
  (at level 100, right associativity) : async_scope.
Open Scope async_scope.

(** [for (const x of l) { f x }]. *)
Fixpoint forEach {A} (f : A -> Async unit) (l : list A) : Async unit :=
  match l with
  | [] => ret tt
  | x :: l' => f x ;;; forEach f l'
  end.

(** [new Date()], as its time value. *)
Definition newDate : Async Z := fun env w => (Return (clock env), w).

(** [new Date().toISOString()]. *)
Definition newDateISO : Async string :=
  fun env w => (Return (JS.toISOString (clock env)), w).

(** [Date.now()], called after [new Date()]. *)
Definition dateNow : Async Z := fun env w => (Return (later env), w).

Definition uuidv4 : Async string := fun env w => (Return (uuid env), w).

Definition console_error (line : string) : Async unit :=
  fun _ w =>
    (Return tt,
     {| tasksFile := tasksFile w; tasksTable := tasksTable w;
        console := console w ++ [line] |}).

(** ** The argument schemas ([src/types.ts])

    The arguments arrive as [unknown]; the embedding takes them with
    their fields already of the right kind, so what [parse] can still
    reject are the constraints on strings.  A failed [parse] throws a
    [ZodError] that lists the message of every violated constraint. *)

Inductive OrAll (A : Type) := Only (a : A) | All.
Arguments Only {A} a.
Arguments All {A}.

Definition checkDate (o : option string) : list string :=
  match o with
  | Some d => if JS.matchesDate d then [] else ["Date must be YYYY-MM-DD"]
  | None => []
  end.

Definition checkMin (n : nat) (s : string) (message : string) : list string :=
  if (n <=? String.length s)%nat then [] else [message].

Definition parsed {A} (issues : list string) (a : A) : Async A :=
  match issues with
  | [] => ret a
  | _ :: _ => throw (ZodError issues)
  end.

Module CreateTaskSchema.
Record input := {
  title : string;
  description : option string;
  priority : option Priority;
  category : option string;
  dueDate : option string
}.
Record output := {
  title' : string;
  description' : option string;
  priority' : Priority;
  category' : option string;
  dueDate' : option string
}.
Definition issues (a : input) : list string :=
  checkMin 1 (title a) "Title is required" ++ checkDate (dueDate a).
Definition parse (a : input) : Async output :=
  parsed (issues a)
    {| title' := title a; description' := description a;
       priority' := match priority a with Some p => p | None => medium end;
       category' := category a; dueDate' := dueDate a |}.
End CreateTaskSchema.

Module ListTasksSchema.
Record input := {
  status : option (OrAll Status);
  priority : option (OrAll Priority);
  category : option string
}.
Record output := {
  status' : OrAll Status;
  priority' : OrAll Priority;
  category' : option string
}.
Definition empty : input := {| status := None; priority := None; category := None |}.
Definition parse (a : input) : Async output :=
  ret {| status' := match status a with Some s => s | None => All end;
         priority' := match priority a with Some p => p | None => All end;
         category' := category a |}.
End ListTasksSchema.

Module UpdateTaskSchema.
Record input := {
  taskId : string;
  title : option string;
  description : option string;
  priority : option Priority;
  category : option string;
  dueDate : option string;
  status : option Status
}.
Definition issues (a : input) : list string :=
  checkMin 8 (taskId a) "Task ID must be at least 8 characters" ++
  checkDate (dueDate a).
Definition parse (a : input) : Async input := parsed (issues a) a.
End UpdateTaskSchema.

Module TaskIdSchema.
Record input := { taskId : string }.
Definition issues (a : input) : list string :=
  checkMin 8 (taskId a) "Task ID must be at least 8 characters".
Definition parse (a : input) : Async input := parsed (issues a) a.
End TaskIdSchema.

Module SearchSchema.
Record input := { query : string }.
Definition issues (a : input) : list string :=
  checkMin 1 (query a) "Search query is required".
Definition parse (a : input) : Async input := parsed (issues a) a.
End SearchSchema.

(** ** Results handed back to the caller *)

Record TextContent := { type : string; text : string }.
Record CallToolResult := { content : list TextContent }.

Definition textResult (s : string) : CallToolResult :=
  {| content := [ {| type := "text"; text := s |} ] |}.

Definition nl : string := String (ascii_of_nat 10) EmptyString.
Definition quote : string := String (ascii_of_nat 34) EmptyString.

(** [formatTask], the same text in [src/storage.ts] and
    [src/storage-db.ts]. *)
Section FormatTask.
Context `{Intl}.

Definition formatTask (task : Task) : string :=
  let statusEmoji :=
    match status task with
    | completed => "✅"
    | in_progress => "⏳"
    | pending => "📋"
    end in
  let priorityEmoji :=
    match priority task with high => "🔴" | medium => "🟡" | low => "🟢" end in
  let line (label : string) (o : option string) :=
    if JS.truthy o then "   " +:+ label +:+ ": " +:+ JS.orElse o EmptyString +:+ nl
    else EmptyString in
  statusEmoji +:+ " Task #" +:+ String.substring 0 8 (id task) +:+ ": " +:+
    title task +:+ nl +:+
  "   " +:+ priorityEmoji +:+ " Priority: " +:+ Priority_text (priority task) +:+ nl +:+
  line "Description" (description task) +:+
  line "Category" (category task) +:+
  line "Due" (dueDate task) +:+
  "   Status: " +:+ Status_text (status task) +:+ nl +:+
  "   Created: " +:+ toLocaleString (createdAt task) +:+ nl +:+
  (if JS.truthy (completedAt task)
   then "   Completed: " +:+ toLocaleString (JS.orElse (completedAt task) EmptyString) +:+ nl
   else EmptyString).
End FormatTask.

(** ** The snapshot-file backend ([src/storage.ts]) *)

Module Storage.

(** [fs.pathExists(TASKS_FILE)]. *)
Definition pathExists : Async bool :=
  fun _ w =>
    (Return match tasksFile w with Absent => false | _ => true end, w).

(** [fs.readJson(TASKS_FILE)]. *)
Definition readJson : Async TaskStorage :=
  fun _ w =>
    match tasksFile w with
    | Json data => (Return data, w)
    | Unreadable error => (Throw (Error error), w)
    | Absent => (Throw (Error "ENOENT: no such file or directory"), w)
    end.

(** [fs.writeJson(TASKS_FILE, storage, { spaces: 2 })]; the write is
    taken to succeed. *)
Definition writeJson (storage : TaskStorage) : Async unit :=
  fun _ w =>
    (Return tt,
     {| tasksFile := Json storage; tasksTable := tasksTable w;
        console := console w |}).

Definition loadTasks : Async TaskStorage :=
  found <- try_catch
             (there <- pathExists ;;
              if there : bool
              then data <- readJson ;; ret (Some data)
              else ret None)
             (fun error =>
                console_error
                  ("Error loading tasks: " +:+
                   match error with
                   | Error message => message
                   | ZodError _ => "ZodError"
                   end) ;;;
                ret None) ;;
  match found with
  | Some data => ret data
  | None =>
      now <- newDateISO ;;
      ret {| tasks := []; lastUpdated := now |}
  end.

Definition saveTasks (storage : TaskStorage) : Async unit :=
  now <- newDateISO ;;
  writeJson {| tasks := tasks storage; lastUpdated := now |}.

End Storage.

(** ** The indexed-table backend ([src/storage-db.ts]) *)

Module StorageDb.

(** [v || null]. *)
Definition orNull (o : option string) : option string :=
  if JS.truthy o then o else None.

(** The row bound to the nine placeholders of the statement. *)
Definition row (task : Task) : Task :=
  {| id := id task; title := title task;
     description := orNull (description task);
     priority := priority task;
     category := orNull (category task);
     dueDate := orNull (dueDate task);
     status := status task;
     createdAt := createdAt task;
     completedAt := orNull (completedAt task) |}.

(** [INSERT OR REPLACE INTO tasks (...) VALUES (...)], run on [task].
    The columns declared [NOT NULL] and the [CHECK]ed enumerations
    cannot be violated by a [Task], so the statement does not fail. *)
Definition insertOrReplace (task : Task) : Async unit :=
  fun _ w =>
    (Return tt,
     {| tasksFile := tasksFile w;
        tasksTable := <[id task := row task]> (tasksTable w);
        console := console w |}).

(** [db.transaction(body)]: commit when the body returns, roll the
    table back and rethrow when it throws. *)
Definition transaction {A} (body : Async A) : Async A :=
  fun env w =>
    match body env w with
    | (Return a, w') => (Return a, w')
    | (Throw e, w') =>
        (Throw e,
         {| tasksFile := tasksFile w'; tasksTable := tasksTable w;
            console := console w' |})
    end.

(** [SELECT * FROM tasks]: all rows, in an order the statement does not
    fix. *)
Definition loadTasks : Async TaskStorage :=
  fun env w =>
    (Return {| tasks := (map_to_list (tasksTable w)).*2;
               lastUpdated := JS.toISOString (clock env) |}, w).

Definition saveTask (task : Task) : Async unit := insertOrReplace task.

Definition saveTasks (storage : TaskStorage) : Async unit :=
  transaction (forEach insertOrReplace (tasks storage)).

(** [DELETE FROM tasks WHERE id = ?]; the result tells whether a row
    went. *)
Definition deleteTask (taskId : string) : Async bool :=
  fun _ w =>
    (Return (bool_decide (is_Some (tasksTable w !! taskId))),
     {| tasksFile := tasksFile w;
        tasksTable := delete taskId (tasksTable w);
        console := console w |}).

End StorageDb.

(** ** The storage router ([src/storage-router.ts]) *)

Module StorageRouter.

Inductive StorageModule := FileStorage | DatabaseStorage.

(** [(process.env.STORAGE_TYPE || "file").toLowerCase()]. *)
Definition storageType (env : Env) : string :=
  JS.toLowerCase (JS.orElse (STORAGE_TYPE env) "file").

Definition storageModule (env : Env) : StorageModule :=
  if String.eqb (storageType env) "database" || String.eqb (storageType env) "db"
  then DatabaseStorage
  else FileStorage.

Definition loadTasks : Async TaskStorage :=
  fun env =>
    match storageModule env with
    | DatabaseStorage => StorageDb.loadTasks env
    | FileStorage => Storage.loadTasks env
    end.

Definition saveTasks (storage : TaskStorage) : Async unit :=
  fun env =>
    match storageModule env with
    | DatabaseStorage => StorageDb.saveTasks storage env
    | FileStorage => Storage.saveTasks storage env
    end.

(** The single-row calls exist on the database module only. *)
Definition saveTask (env : Env) : option (Task -> Async unit) :=
  match storageModule env with
  | DatabaseStorage => Some StorageDb.saveTask
  | FileStorage => None
  end.

Definition deleteTask (env : Env) : option (string -> Async bool) :=
  match storageModule env with
  | DatabaseStorage => Some StorageDb.deleteTask
  | FileStorage => None
  end.

End StorageRouter.

(** ** The eight operations ([src/tools.ts])

    The module imports [loadTasks], [saveTasks] and [formatTask] from
    ["./storage.js"], the snapshot-file backend. *)

Module Tools.
Section Operations.
Context `{Intl}.

Local Open Scope Z_scope.

Definition count (p : Task -> bool) (l : list Task) : nat :=
  length (List.filter p l).

Definition hasStatus (s : Status) (t : Task) : bool := Status_eqb (status t) s.
Definition hasPriority (p : Priority) (t : Task) : bool := Priority_eqb (priority t) p.

(** *** createTask *)

Definition createTask (args : CreateTaskSchema.input) : Async CallToolResult :=
  validated <- CreateTaskSchema.parse args ;;
  storage <- Storage.loadTasks ;;
  newId <- uuidv4 ;;
  now <- newDateISO ;;
  let newTask :=
    {| id := newId;
       title := CreateTaskSchema.title' validated;
       description := CreateTaskSchema.description' validated;
       priority := CreateTaskSchema.priority' validated;
       category := CreateTaskSchema.category' validated;
       dueDate := CreateTaskSchema.dueDate' validated;
       status := pending;
       createdAt := now;
       completedAt := None |} in
  Storage.saveTasks
    {| tasks := tasks storage ++ [newTask]; lastUpdated := lastUpdated storage |} ;;;
  ret (textResult ("✅ Task created successfully!" +:+ nl +:+ nl +:+ formatTask newTask)).

(** *** listTasks *)

Definition sameCategory (wanted : string) (t : Task) : bool :=
  match category t with
  | Some c => String.eqb (toLowerCase c) (toLowerCase wanted)
  | None => false
  end.

Definition applyFilters (validated : ListTasksSchema.output) (l : list Task) : list Task :=
  let l :=
    match ListTasksSchema.status' validated with
    | All => l
    | Only s => List.filter (hasStatus s) l
    end in
  let l :=
    match ListTasksSchema.priority' validated with
    | All => l
    | Only p => List.filter (hasPriority p) l
    end in
  if JS.truthy (ListTasksSchema.category' validated)
  then List.filter (sameCategory (JS.orElse (ListTasksSchema.category' validated) EmptyString)) l
  else l.

Definition priorityOrder (p : Priority) : Z :=
  match p with high => 0 | medium => 1 | low => 2 end.

Definition sentinel : string := "9999-99-99".

(** The comparator handed to [tasks.sort]. *)
Definition compareTasks (a b : Task) : Z :=
  let priorityDiff := priorityOrder (priority a) - priorityOrder (priority b) in
  if negb (priorityDiff =? 0) then priorityDiff
  else
    let aDate := JS.orElse (dueDate a) sentinel in
    let bDate := JS.orElse (dueDate b) sentinel in
    localeCompare aDate bDate.

(** The array [tasks] when the text is composed. *)
Definition listed (validated : ListTasksSchema.output) (all : list Task) : list Task :=
  JS.sort compareTasks (applyFilters validated all).

Definition summary (all : list Task) : string :=
  nl +:+ "📊 Summary: " +:+ JS.showNat (count (hasStatus pending) all) +:+
  " pending | " +:+ JS.showNat (count (hasStatus in_progress) all) +:+
  " in progress | " +:+ JS.showNat (count (hasStatus completed) all) +:+
  " completed".

Definition formatAll (l : list Task) : string :=
  fold_left (fun result task => result +:+ formatTask task +:+ nl) l EmptyString.

Definition listTasks (args : option ListTasksSchema.input) : Async CallToolResult :=
  validated <- ListTasksSchema.parse
                 match args with Some a => a | None => ListTasksSchema.empty end ;;
  storage <- Storage.loadTasks ;;
  if (length (applyFilters validated (tasks storage)) =? 0)%nat
  then ret (textResult "No tasks found matching the criteria.")
  else
    let sorted := listed validated (tasks storage) in
    ret (textResult
           ("📋 Found " +:+ JS.showNat (length sorted) +:+ " task(s):" +:+ nl +:+ nl +:+
            formatAll sorted +:+ summary (tasks storage))).

(** *** updateTask *)

Definition matchesId (taskId : string) (t : Task) : bool := JS.startsWith (id t) taskId.

Definition notFound (taskId : string) : CallToolResult :=
  textResult ("❌ Task with ID " +:+ taskId +:+ " not found.").

Definition assign {A} (field : A -> Task -> Task) (v : option A) (t : Task) : Task :=
  match v with
  | Some x => field x t
  | None => t
  end.

(** The assignments of lines 154 to 177, on the task found; [now] is
    what [new Date().toISOString()] yields. *)
Definition applyUpdate (validated : UpdateTaskSchema.input) (now : string)
    (task : Task) : Task :=
  let task := assign set_title (UpdateTaskSchema.title validated) task in
  let task := assign (fun v => set_description (Some v))
                (UpdateTaskSchema.description validated) task in
  let task := assign set_priority (UpdateTaskSchema.priority validated) task in
  let task := assign (fun v => set_category (Some v))
                (UpdateTaskSchema.category validated) task in
  let task := assign (fun v => set_dueDate (Some v))
                (UpdateTaskSchema.dueDate validated) task in
  match UpdateTaskSchema.status validated with
  | Some s =>
      let task := set_status s task in
      if Status_eqb s completed && negb (JS.truthy (completedAt task))
      then set_completedAt (Some now) task
      else if negb (Status_eqb s completed)
      then set_completedAt None task
      else task
  | None => task
  end.

Definition updateTask (args : UpdateTaskSchema.input) : Async CallToolResult :=
  validated <- UpdateTaskSchema.parse args ;;
  storage <- Storage.loadTasks ;;
  match JS.findIndex (matchesId (UpdateTaskSchema.taskId validated)) (tasks storage) with
  | None => ret (notFound (UpdateTaskSchema.taskId validated))
  | Some taskIndex =>
      match tasks storage !! taskIndex with
      | None => throw (Error "Cannot set properties of undefined")
      | Some found =>
          now <- newDateISO ;;
          let task := applyUpdate validated now found in
          Storage.saveTasks
            {| tasks := <[taskIndex := task]> (tasks storage);
               lastUpdated := lastUpdated storage |} ;;;
          ret (textResult
                 ("✅ Task updated successfully!" +:+ nl +:+ nl +:+ formatTask task))
      end
  end.

(** *** deleteTask *)

Definition deleteTask (args : TaskIdSchema.input) : Async CallToolResult :=
  validated <- TaskIdSchema.parse args ;;
  storage <- Storage.loadTasks ;;
  match JS.findIndex (matchesId (TaskIdSchema.taskId validated)) (tasks storage) with
  | None => ret (notFound (TaskIdSchema.taskId validated))
  | Some taskIndex =>
      match tasks storage !! taskIndex with
      | None => throw (Error "Cannot read properties of undefined (reading 'title')")
      | Some deletedTask =>
          Storage.saveTasks
            {| tasks := JS.removeAt taskIndex (tasks storage);
               lastUpdated := lastUpdated storage |} ;;;
          ret (textResult
                 ("🗑️ Task " +:+ quote +:+ title deletedTask +:+ quote +:+ " deleted successfully."))
      end
  end.

(** *** completeTask

    [tasks.find(p)] yields the element at [findIndex p]; the element is
    changed in place. *)

Definition complete (now : string) (task : Task) : Task :=
  set_completedAt (Some now) (set_status completed task).

Definition completeTask (args : TaskIdSchema.input) : Async CallToolResult :=
  validated <- TaskIdSchema.parse args ;;
  storage <- Storage.loadTasks ;;
  match JS.findIndex (matchesId (TaskIdSchema.taskId validated)) (tasks storage) with
  | None => ret (notFound (TaskIdSchema.taskId validated))
  | Some taskIndex =>
      match tasks storage !! taskIndex with
      | None => ret (notFound (TaskIdSchema.taskId validated))
      | Some found =>
          now <- newDateISO ;;
          let task := complete now found in
          Storage.saveTasks
            {| tasks := <[taskIndex := task]> (tasks storage);
               lastUpdated := lastUpdated storage |} ;;;
          ret (textResult ("✅ Task completed!" +:+ nl +:+ nl +:+ formatTask task))
      end
  end.

(** *** searchTasks *)

Definition matchesQuery (query : string) (t : Task) : bool :=
  JS.includes (toLowerCase (title t)) query ||
  (JS.truthy (description t) &&
   JS.includes (toLowerCase (JS.orElse (description t) EmptyString)) query).

Definition searchTasks (args : SearchSchema.input) : Async CallToolResult :=
  validated <- SearchSchema.parse args ;;
  storage <- Storage.loadTasks ;;
  let query := toLowerCase (SearchSchema.query validated) in
  let matchingTasks := List.filter (matchesQuery query) (tasks storage) in
  if (length matchingTasks =? 0)%nat
  then ret (textResult
              ("No tasks found matching " +:+ quote +:+ SearchSchema.query validated +:+ quote +:+ "."))
  else
    ret (textResult
           ("🔍 Found " +:+ JS.showNat (length matchingTasks) +:+
            " task(s) matching " +:+ quote +:+ SearchSchema.query validated +:+ quote +:+ ":" +:+
            nl +:+ nl +:+ formatAll matchingTasks)).

(** *** getTaskStats *)

(** The [Map] of category counts: its entries in insertion order. *)
Definition mapGet (k : string) (m : list (string * nat)) : option nat :=
  option_map snd (List.find (fun e => String.eqb (fst e) k) m).

Fixpoint mapSet (k : string) (v : nat) (m : list (string * nat)) : list (string * nat) :=
  match m with
  | [] => [(k, v)]
  | e :: m' => if String.eqb (fst e) k then (k, v) :: m' else e :: mapSet k v m'
  end.

Definition countCategory (m : list (string * nat)) (t : Task) : list (string * nat) :=
  match category t with
  | Some c =>
      if JS.truthy (Some c)
      then mapSet c (match mapGet c m with Some n => n | None => 0%nat end + 1)%nat m
      else m
  | None => m
  end.

Definition categories (l : list Task) : list (string * nat) :=
  fold_left countCategory l [].

Definition sortedCategories (l : list Task) : list (string * nat) :=
  JS.sort (fun a b => localeCompare (fst a) (fst b)) (categories l).

(** [today] comes from [new Date()], [oneWeekFromNow] from the
    [Date.now()] that is called after it: [now] and [later] are the two
    readings. *)
Definition today (now : Z) : string := JS.splitHead "T" (JS.toISOString now).

Definition oneWeekFromNow (later : Z) : string :=
  JS.splitHead "T" (JS.toISOString (later + 7 * 24 * 60 * 60 * 1000)).

Definition isOverdue (now : Z) (t : Task) : bool :=
  negb (hasStatus completed t) && JS.truthy (dueDate t) &&
  match dueDate t with
  | Some d => JS.lt d (today now)
  | None => false
  end.

Definition isDueSoon (now later : Z) (t : Task) : bool :=
  negb (hasStatus completed t) && JS.truthy (dueDate t) &&
  match dueDate t with
  | Some d => JS.ge d (today now) && JS.le d (oneWeekFromNow later)
  | None => false
  end.

Definition overdue (now : Z) (l : list Task) : nat := count (isOverdue now) l.
Definition dueSoon (now later : Z) (l : list Task) : nat := count (isDueSoon now later) l.

Definition completionRate (l : list Task) : string :=
  let total := length l in
  if (0 <? total)%nat
  then JS.toFixed1
         (JS.mul (JS.div (JS.number (count (hasStatus completed) l)) (JS.number total))
                 (JS.number 100))
  else "0".

Fixpoint repeat_string (s : string) (n : nat) : string :=
  match n with
  | O => EmptyString
  | S n' => s +:+ repeat_string s n'
  end.

Definition statsText (now later : Z) (l : list Task) : string :=
  "📊 Task Manager Statistics" +:+ nl +:+
  repeat_string "=" 30 +:+ nl +:+ nl +:+
  "📈 Total Tasks: " +:+ JS.showNat (length l) +:+ nl +:+
  "✅ Completion Rate: " +:+ completionRate l +:+ "%" +:+ nl +:+ nl +:+
  "Status Breakdown:" +:+ nl +:+
  "  📋 Pending: " +:+ JS.showNat (count (hasStatus pending) l) +:+ nl +:+
  "  ⏳ In Progress: " +:+ JS.showNat (count (hasStatus in_progress) l) +:+ nl +:+
  "  ✅ Completed: " +:+ JS.showNat (count (hasStatus completed) l) +:+ nl +:+ nl +:+
  "Priority Breakdown:" +:+ nl +:+
  "  🔴 High: " +:+ JS.showNat (count (hasPriority high) l) +:+ nl +:+
  "  🟡 Medium: " +:+ JS.showNat (count (hasPriority medium) l) +:+ nl +:+
  "  🟢 Low: " +:+ JS.showNat (count (hasPriority low) l) +:+ nl +:+
  (if (0 <? length (categories l))%nat
   then nl +:+ "Categories:" +:+ nl +:+
        fold_left
          (fun result e =>
             result +:+ "  📁 " +:+ fst e +:+ ": " +:+ JS.showNat (snd e) +:+ nl)
          (sortedCategories l) EmptyString
   else EmptyString) +:+
  (if (0 <? overdue now l)%nat
   then nl +:+ "⚠️ Overdue Tasks: " +:+ JS.showNat (overdue now l) +:+ nl
   else EmptyString) +:+
  (if (0 <? dueSoon now later l)%nat
   then "📅 Due Within 7 Days: " +:+ JS.showNat (dueSoon now later l) +:+ nl
   else EmptyString).

Definition noTasksYet : string :=
  "No tasks yet. Create your first task to get started!".

Definition getTaskStats : Async CallToolResult :=
  storage <- Storage.loadTasks ;;
  if (length (tasks storage) =? 0)%nat
  then ret (textResult noTasksYet)
  else
    now <- newDate ;;
    later <- dateNow ;;
    ret (textResult (statsText now later (tasks storage))).

(** *** clearCompleted *)

Definition clearedMessage (removedCount remaining : nat) : string :=
  if (0 <? removedCount)%nat
  then "🧹 Cleared " +:+ JS.showNat removedCount +:+ " completed task(s). " +:+
       JS.showNat remaining +:+ " active task(s) remaining."
  else "No completed tasks to clear.".

Definition clearCompleted : Async CallToolResult :=
  storage <- Storage.loadTasks ;;
  let originalCount := length (tasks storage) in
  let kept := List.filter (fun t => negb (hasStatus completed t)) (tasks storage) in
  let removedCount := (originalCount - length kept)%nat in
  Storage.saveTasks {| tasks := kept; lastUpdated := lastUpdated storage |} ;;;
  ret (textResult (clearedMessage removedCount (length kept))).

End Operations.
End Tools.

(** ** The server ([src/index.ts]) *)

Module Server.
Section Handlers.
Context `{Intl}.

Inductive CallToolRequest :=
| create_task (args : CreateTaskSchema.input)
| list_tasks (args : option ListTasksSchema.input)
| update_task (args : UpdateTaskSchema.input)
| delete_task (args : TaskIdSchema.input)
| complete_task (args : TaskIdSchema.input)
| search_tasks (args : SearchSchema.input)
| get_task_stats
| clear_completed
| unknown_tool (name : string).

Definition dispatch (request : CallToolRequest) : Async CallToolResult :=
  match request with
  | create_task args => Tools.createTask args
  | list_tasks args => Tools.listTasks args
  | update_task args => Tools.updateTask args
  | delete_task args => Tools.deleteTask args
  | complete_task args => Tools.completeTask args
  | search_tasks args => Tools.searchTasks args
  | get_task_stats => Tools.getTaskStats
  | clear_completed => Tools.clearCompleted
  | unknown_tool name => throw (Error ("Unknown tool: " +:+ name))
  end.

(** The handler of [CallToolRequestSchema]: the chosen tool, with
    exceptions turned into texts. *)
Definition callTool (request : CallToolRequest) : Async CallToolResult :=
  try_catch (dispatch request)
    (fun error =>
       match error with
       | ZodError errors =>
           ret (textResult ("❌ Validation error: " +:+ String.concat ", " errors))
       | Error message => ret (textResult ("❌ Error: " +:+ message))
       end).

(** The handler of [ReadResourceRequestSchema] for [tasks://list]: the
    tasks whose JSON text it returns.  It loads through the router. *)
Definition readTasksResource : Async (list Task) :=
  storage <- StorageRouter.loadTasks ;;
  ret (tasks storage).

End Handlers.
End Server.

(** ** Notions the statements use *)

(** The collection a load of the snapshot backend yields in a world. *)
Definition stored (w : World) : list Task :=
  match tasksFile w with
  | Json data => tasks data
  | Absent | Unreadable _ => []
  end.

(** What JavaScript takes for a field that is there. *)
Definition present (o : option string) : Prop := JS.truthy o = true.
Definition absent (o : option string) : Prop := JS.truthy o = false.

(** Two elements the comparator does not order. *)
Definition ties {A} (cmp : A -> A -> Z) (a b : A) : bool :=
  (cmp a b <=? 0)%Z && (cmp b a <=? 0)%Z.

(** The code-unit comparison as a comparator. *)
Definition codeUnitCompare (a b : string) : Z :=
  match String.compare a b with
  | Lt => (-1)%Z
  | Eq => 0%Z
  | Gt => 1%Z
  end.

Definition emptyStorage (env : Env) : TaskStorage :=
  {| tasks := []; lastUpdated := JS.toISOString (clock env) |}.

Definition logged (line : string) (w : World) : World :=
  {| tasksFile := tasksFile w; tasksTable := tasksTable w;
     console := console w ++ [line] |}.

Definition written (l : list Task) (env : Env) (w : World) : World :=
  {| tasksFile := Json {| tasks := l; lastUpdated := JS.toISOString (clock env) |};
     tasksTable := tasksTable w; console := console w |}.

Definition taskIdTooShort : string := "Task ID must be at least 8 characters".

Definition consistent (t : Task) : Prop :=
  present (completedAt t) <-> status t = completed.

Definition notCompleted (t : Task) : bool := negb (Tools.hasStatus completed t).

(** The table after the statements of the transaction ran on [l]. *)
Definition upserted (table : gmap string Task) (l : list Task) : gmap string Task :=
  fold_left (fun m task => <[id task := StorageDb.row task]> m) l table.

(** The due date a task is sorted by. *)
Definition dueKey (t : Task) : string := JS.orElse (dueDate t) Tools.sentinel.

(** Ascending by priority rank, ties by due key in code-unit order. *)
Definition listOrder (a b : Task) : Prop :=
  (Tools.priorityOrder (priority a) < Tools.priorityOrder (priority b))%Z \/
  (Tools.priorityOrder (priority a) = Tools.priorityOrder (priority b) /\
   JS.le (dueKey a) (dueKey b) = true).

(** A task without a due date, or with one of the shape the schemas
    admit. *)
Definition schemaDate (t : Task) : Prop := JS.matchesDate (dueKey t) = true.

(** No task with a due date stands behind a task of its priority that
    lacks one. *)
Definition undatedLast (l : list Task) : Prop :=
  forall l1 a l2 b,
    l = (l1 ++ a :: l2)%list -> In b l2 -> priority a = priority b ->
    absent (dueDate a) -> absent (dueDate b).

Definition noFilter : ListTasksSchema.output :=
  {| ListTasksSchema.status' := All; ListTasksSchema.priority' := All;
     ListTasksSchema.category' := None |}.


Definition getCount (c : string) (m : list (string * nat)) : nat :=
  match Tools.mapGet c m with
  | Some n => n
  | None => 0
  end.



(** [n] of the tasks of [l] satisfy [P]. *)
Inductive Counted (P : Task -> Prop) : list Task -> nat -> Prop :=
| Counted_nil : Counted P [] 0
| Counted_in t l n : P t -> Counted P l n -> Counted P (t :: l) (S n)
| Counted_out t l n : ~ P t -> Counted P l n -> Counted P (t :: l) n.



(** A task passes the filters of a listing: each filter that is set
    holds of it, the category up to the runtime's case conversion. *)
Definition passes `{Intl} (validated : ListTasksSchema.output) (t : Task) : Prop :=
  match ListTasksSchema.status' validated with
  | All => True
  | Only s => status t = s
  end /\
  match ListTasksSchema.priority' validated with
  | All => True
  | Only p => priority t = p
  end /\
  match ListTasksSchema.category' validated with
  | Some wanted =>
      wanted = EmptyString \/
      exists c, category t = Some c /\ toLowerCase c = toLowerCase wanted
  | None => True
  end.





(** The rows of the table are filed under their own id and hold no empty
    optional column: what every write of the indexed backend
    establishes. *)
Definition tableOk (table : gmap string Task) : Prop :=
  forall k t, table !! k = Some t -> id t = k /\ StorageDb.row t = t.

(** The rows a load of the indexed backend yields in a world. *)
Definition rows (w : World) : list Task := (map_to_list (tasksTable w)).*2.

(** The task [createTask] builds from validated arguments. *)
Definition created (args : CreateTaskSchema.input) (env : Env) : Task :=
  {| id := uuid env;
     title := CreateTaskSchema.title args;
     description := CreateTaskSchema.description args;
     priority := match CreateTaskSchema.priority args with
                 | Some p => p
                 | None => medium
                 end;
     category := CreateTaskSchema.category args;
     dueDate := CreateTaskSchema.dueDate args;
     status := pending;
     createdAt := JS.toISOString (clock env);
     completedAt := None |}.

(** An environment that differs in [STORAGE_TYPE] only. *)
Definition withStorageType (env : Env) (value : option string) : Env :=
  {| clock := clock env; later := later env; uuid := uuid env; STORAGE_TYPE := value |}.

(** [q] occurs in [s]. *)
Definition isSubstring (q s : string) : Prop := exists a b, s = a +:+ q +:+ b.

(** A task carries a category. *)
Definition hasCategory (t : Task) : bool := JS.truthy (category t).

(** ** Sample data *)

Module Sample.
Definition env : Env :=
  {| clock := 1793605510123;
     later := 1793605510124;
     uuid := "123e4567-e89b-12d3-a456-426614174000";
     STORAGE_TYPE := Some "database" |}.

Definition task (i : string) (p : Priority) (due : option string) (s : Status)
    (done : option string) : Task :=
  {| id := i; title := "Review PRs"; description := None; priority := p;
     category := Some "work"; dueDate := due; status := s;
     createdAt := "2025-01-01T09:00:00.000Z"; completedAt := done |}.

Definition t1 := task "0a1b2c3d-0000" low (Some "2025-01-01") pending None.
Definition t2 := task "7f3e9a10-aaaa" high None in_progress None.
Definition t3 := task "7f3e9a10-bbbb" medium (Some "2025-01-01") completed
                   (Some "2025-01-02T10:00:00.000Z").

Definition world (l : list Task) : World :=
  {| tasksFile := Json {| tasks := l; lastUpdated := "2025-01-03T00:00:00.000Z" |};
     tasksTable := ∅; console := [] |}.

Definition update (taskId : string) (s : option Status) : UpdateTaskSchema.input :=
  {| UpdateTaskSchema.taskId := taskId; UpdateTaskSchema.title := Some "Review all PRs";
     UpdateTaskSchema.description := None; UpdateTaskSchema.priority := None;
     UpdateTaskSchema.category := None; UpdateTaskSchema.dueDate := Some "2025-02-30";
     UpdateTaskSchema.status := s |}.
End Sample.

(** * Properties *)

(** ** Strings *)

Lemma ascii_compare_refl (c : ascii) : Ascii.compare c c = Eq.
Proof. unfold Ascii.compare. apply N.compare_refl. Qed.

Lemma string_compare_refl (s : string) : String.compare s s = Eq.
Proof.
  induction s as [|c s IH]; simpl; [reflexivity|].
  now rewrite ascii_compare_refl.
Qed.

Lemma ascii_compare_lt_trans (a b c : ascii) :
  Ascii.compare a b = Lt -> Ascii.compare b c = Lt -> Ascii.compare a c = Lt.
Proof.
  unfold Ascii.compare. rewrite !N.compare_lt_iff. lia.
Qed.

Lemma string_compare_lt_trans (a b c : string) :
  String.compare a b = Lt -> String.compare b c = Lt -> String.compare a c = Lt.
Proof.
  revert b c. induction a as [|x a IH]; intros [|y b] [|z c]; simpl; try congruence.
  destruct (Ascii.compare x y) eqn:Hxy; try congruence;
    destruct (Ascii.compare y z) eqn:Hyz; try congruence.
  - apply Ascii.compare_eq_iff in Hxy, Hyz. subst.
    rewrite ascii_compare_refl. apply IH.
  - apply Ascii.compare_eq_iff in Hxy. subst. now rewrite Hyz.
  - apply Ascii.compare_eq_iff in Hyz. subst. now rewrite Hxy.
  - now rewrite (ascii_compare_lt_trans x y z).
Qed.

Lemma string_leb_trans (a b c : string) :
  String.leb a b = true -> String.leb b c = true -> String.leb a c = true.
Proof.
  unfold String.leb.
  destruct (String.compare a b) eqn:Hab; try discriminate;
    destruct (String.compare b c) eqn:Hbc; try discriminate; intros _ _.
  - apply String.compare_eq_iff in Hab, Hbc. subst. now rewrite string_compare_refl.
  - apply String.compare_eq_iff in Hab. subst. now rewrite Hbc.
  - apply String.compare_eq_iff in Hbc. subst. now rewrite Hab.
  - now rewrite (string_compare_lt_trans a b c).
Qed.

Lemma string_leb_not_ltb (a b : string) :
  String.leb a b = true -> String.ltb b a = false.
Proof.
  unfold String.leb, String.ltb. rewrite (String.compare_antisym a b).
  now destruct (String.compare b a).
Qed.

Lemma codeUnitCompare_le (a b : string) :
  (codeUnitCompare a b <=? 0)%Z = JS.le a b.
Proof.
  unfold codeUnitCompare, JS.le, String.leb. now destruct (String.compare a b).
Qed.

(** The code units give a collation: the order of a runtime whose locale
    compares strings unit by unit, with timestamps shown as they are.
    Its case conversion is the one of the ASCII letters, which is what
    every runtime does on ASCII texts. *)
#[local] Program Instance codeUnits : Intl :=
  {| toLowerCase := JS.toLowerCase;
     localeCompare := codeUnitCompare; toLocaleString := fun s => s |}.
Next Obligation.
  intros a. unfold codeUnitCompare. now rewrite string_compare_refl.
Qed.
Next Obligation.
  intros a b. unfold codeUnitCompare. rewrite (String.compare_antisym a b).
  now destruct (String.compare b a).
Qed.
Next Obligation.
  intros a b c Hab Hbc.
  apply Z.leb_le in Hab, Hbc. rewrite codeUnitCompare_le in Hab, Hbc.
  apply Z.leb_le. rewrite codeUnitCompare_le.
  exact (string_leb_trans a b c Hab Hbc).
Qed.
Next Obligation.
  intros a b _ _. apply codeUnitCompare_le.
Qed.

(** ** Sorting with a consistent comparator *)

Section SortProperties.
Context {A : Type} (cmp : A -> A -> Z).
Hypothesis cmp_total : forall a b, (cmp a b <= 0)%Z \/ (cmp b a <= 0)%Z.
Hypothesis cmp_trans :
  forall a b c, (cmp a b <= 0)%Z -> (cmp b c <= 0)%Z -> (cmp a c <= 0)%Z.

Let le (a b : A) : Prop := (cmp a b <= 0)%Z.

Lemma insertBy_Permutation (x : A) (l : list A) :
  Permutation (JS.insertBy cmp x l) (x :: l).
Proof using Type.
  induction l as [|y l IH]; simpl; [reflexivity|].
  destruct (cmp x y <=? 0)%Z; [reflexivity|].
  rewrite IH. apply perm_swap.
Qed.

Lemma sort_Permutation (l : list A) : Permutation (JS.sort cmp l) l.
Proof using Type.
  induction l as [|x l IH]; simpl; [reflexivity|].
  unfold JS.sort in *. simpl. rewrite insertBy_Permutation. now constructor.
Qed.

Lemma insertBy_sorted (x : A) (l : list A) :
  StronglySorted le l -> StronglySorted le (JS.insertBy cmp x l).
Proof using cmp_total cmp_trans.
  induction 1 as [|y l Hs IH Hy]; simpl.
  - repeat constructor.
  - destruct (cmp x y <=? 0)%Z eqn:Hxy.
    + apply Z.leb_le in Hxy. constructor; [now constructor|].
      constructor; [exact Hxy|].
      eapply List.Forall_impl; [|exact Hy]. intros z Hz. exact (cmp_trans _ _ _ Hxy Hz).
    + apply Z.leb_gt in Hxy. constructor; [exact IH|].
      eapply Permutation_Forall; [symmetry; apply insertBy_Permutation|].
      constructor; [|exact Hy].
      destruct (cmp_total y x) as [H|H]; [exact H|]. unfold le. lia.
Qed.

Lemma sort_sorted (l : list A) : StronglySorted le (JS.sort cmp l).
Proof using cmp_total cmp_trans.
  induction l as [|x l IH]; [constructor|].
  unfold JS.sort in *. simpl. now apply insertBy_sorted.
Qed.

(** Stability: the elements that tie with [z] come out in the order
    they went in. *)
Lemma insertBy_ties (z x : A) (l : list A) :
  List.filter (ties cmp z) (JS.insertBy cmp x l) =
  if ties cmp z x then x :: List.filter (ties cmp z) l else List.filter (ties cmp z) l.
Proof using cmp_trans.
  induction l as [|y l IH]; simpl; [reflexivity|].
  destruct (cmp x y <=? 0)%Z eqn:Hxy; [reflexivity|].
  simpl. rewrite IH.
  destruct (ties cmp z x) eqn:Hzx; [|reflexivity].
  destruct (ties cmp z y) eqn:Hzy; [|reflexivity].
  exfalso. unfold ties in Hzx, Hzy.
  apply andb_true_iff in Hzx as [_ Hxz]. apply andb_true_iff in Hzy as [Hzy _].
  apply Z.leb_le in Hxz, Hzy. apply Z.leb_gt in Hxy.
  pose proof (cmp_trans _ _ _ Hxz Hzy). lia.
Qed.

Lemma sort_stable (z : A) (l : list A) :
  List.filter (ties cmp z) (JS.sort cmp l) = List.filter (ties cmp z) l.
Proof using cmp_trans.
  induction l as [|x l IH]; [reflexivity|].
  unfold JS.sort in *. simpl. rewrite insertBy_ties, IH. reflexivity.
Qed.
End SortProperties.

Lemma StronglySorted_impl_In {A} (R R' : A -> A -> Prop) (l : list A) :
  (forall a b, In a l -> In b l -> R a b -> R' a b) ->
  StronglySorted R l -> StronglySorted R' l.
Proof.
  intros HR Hs. induction Hs as [|x l Hs IH Hx]; [constructor|].
  constructor.
  - apply IH. intros a b Ha Hb. apply HR; now right.
  - rewrite List.Forall_forall in *. intros b Hb.
    apply HR; [now left|now right|]. now apply Hx.
Qed.

Lemma StronglySorted_after {A} (R : A -> A -> Prop) (l1 l2 : list A) (a b : A) :
  StronglySorted R (l1 ++ a :: l2) -> In b l2 -> R a b.
Proof.
  induction l1 as [|x l1 IH]; simpl; intros Hs Hb.
  - apply StronglySorted_inv in Hs as [_ Hall].
    rewrite List.Forall_forall in Hall. now apply Hall.
  - apply StronglySorted_inv in Hs as [Hs _]. now apply IH.
Qed.

(** ** The snapshot backend *)

Lemma loadTasks_Json env w data :
  tasksFile w = Json data -> Storage.loadTasks env w = (Return data, w).
Proof.
  intros Hf. unfold Storage.loadTasks, bind, try_catch, Storage.pathExists,
    Storage.readJson, ret. repeat (rewrite Hf; cbn). reflexivity.
Qed.

Lemma loadTasks_Absent env w :
  tasksFile w = Absent -> Storage.loadTasks env w = (Return (emptyStorage env), w).
Proof.
  intros Hf. unfold Storage.loadTasks, bind, try_catch, Storage.pathExists,
    Storage.readJson, ret. repeat (rewrite Hf; cbn). reflexivity.
Qed.

Lemma loadTasks_Unreadable env w error :
  tasksFile w = Unreadable error ->
  Storage.loadTasks env w =
  (Return (emptyStorage env), logged ("Error loading tasks: " +:+ error) w).
Proof.
  intros Hf. unfold Storage.loadTasks, bind, try_catch, Storage.pathExists,
    Storage.readJson, ret. repeat (rewrite Hf; cbn).
  unfold logged. now rewrite Hf.
Qed.

(** Every load returns, with the stored collection, and leaves the
    document and the table as they are. *)
Lemma loadTasks_returns env w :
  exists storage w',
    Storage.loadTasks env w = (Return storage, w') /\
    tasks storage = stored w /\
    tasksFile w' = tasksFile w /\ tasksTable w' = tasksTable w.
Proof.
  unfold stored. destruct (tasksFile w) as [|error|data] eqn:Hf.
  - exists (emptyStorage env), w. now rewrite (loadTasks_Absent env w Hf).
  - eexists _, _. rewrite (loadTasks_Unreadable env w error Hf). now repeat split.
  - exists data, w. now rewrite (loadTasks_Json env w data Hf).
Qed.

Lemma saveTasks_run storage env w :
  Storage.saveTasks storage env w = (Return tt, written (tasks storage) env w).
Proof. reflexivity. Qed.

Lemma stored_written l env w : stored (written l env w) = l.
Proof. reflexivity. Qed.

(** C6.  The load of the snapshot backend returns in every world.  When
    the document is missing the result is the empty collection stamped
    with the current time; when it cannot be read the error is written to
    the console and the result is the same empty collection; a readable
    document is returned as it is.  The document is never touched. *)
Theorem snapshot_load_never_raises (env : Env) (w : World) :
  exists storage w',
    Storage.loadTasks env w = (Return storage, w') /\
    tasksFile w' = tasksFile w /\
    match tasksFile w with
    | Absent =>
        storage = {| tasks := []; lastUpdated := JS.toISOString (clock env) |} /\
        w' = w
    | Unreadable error =>
        storage = {| tasks := []; lastUpdated := JS.toISOString (clock env) |} /\
        console w' = (console w ++ ["Error loading tasks: " +:+ error])%list
    | Json data => storage = data /\ w' = w
    end.
Proof.
  destruct (tasksFile w) as [|error|data] eqn:Hf.
  - exists (emptyStorage env), w. rewrite (loadTasks_Absent env w Hf). now repeat split.
  - eexists _, _. rewrite (loadTasks_Unreadable env w error Hf). now repeat split.
  - exists data, w. rewrite (loadTasks_Json env w data Hf). now repeat split.
Qed.

(** ** Validation of the task id *)

Lemma checkMin_short n s message :
  (String.length s < n)%nat -> checkMin n s message = [message].
Proof.
  intros Hs. unfold checkMin. destruct (Nat.leb_spec n (String.length s)); [lia|reflexivity].
Qed.

Lemma checkMin_long n s message :
  (n <= String.length s)%nat -> checkMin n s message = [].
Proof.
  intros Hs. unfold checkMin. destruct (Nat.leb_spec n (String.length s)); [reflexivity|lia].
Qed.

(** C10.  A task id shorter than eight characters makes update, delete
    and complete throw the validation error before anything is loaded:
    the world, and so the stored collection, is exactly as before.  The
    dispatcher reports the error as a text, again without a change. *)
Theorem short_taskId_rejected `{Intl} (env : Env) (w : World)
    (uargs : UpdateTaskSchema.input) (args : TaskIdSchema.input) :
  (String.length (UpdateTaskSchema.taskId uargs) < 8)%nat ->
  (String.length (TaskIdSchema.taskId args) < 8)%nat ->
  Tools.updateTask uargs env w =
    (Throw (ZodError (taskIdTooShort :: checkDate (UpdateTaskSchema.dueDate uargs))), w) /\
  Tools.deleteTask args env w = (Throw (ZodError [taskIdTooShort]), w) /\
  Tools.completeTask args env w = (Throw (ZodError [taskIdTooShort]), w) /\
  snd (Server.callTool (Server.update_task uargs) env w) = w /\
  Server.callTool (Server.delete_task args) env w =
    (Return (textResult ("❌ Validation error: " +:+ taskIdTooShort)), w) /\
  Server.callTool (Server.complete_task args) env w =
    (Return (textResult ("❌ Validation error: " +:+ taskIdTooShort)), w).
Proof.
  intros Hu Ha.
  assert (Eu : Tools.updateTask uargs env w =
    (Throw (ZodError (taskIdTooShort :: checkDate (UpdateTaskSchema.dueDate uargs))), w)).
  { unfold Tools.updateTask, bind, UpdateTaskSchema.parse, UpdateTaskSchema.issues.
    now rewrite (checkMin_short 8 _ _ Hu). }
  assert (Ed : Tools.deleteTask args env w = (Throw (ZodError [taskIdTooShort]), w)).
  { unfold Tools.deleteTask, bind, TaskIdSchema.parse, TaskIdSchema.issues.
    now rewrite (checkMin_short 8 _ _ Ha). }
  assert (Ec : Tools.completeTask args env w = (Throw (ZodError [taskIdTooShort]), w)).
  { unfold Tools.completeTask, bind, TaskIdSchema.parse, TaskIdSchema.issues.
    now rewrite (checkMin_short 8 _ _ Ha). }
  repeat split; try assumption.
  - unfold Server.callTool, try_catch, Server.dispatch. now rewrite Eu.
  - unfold Server.callTool, try_catch, Server.dispatch. now rewrite Ed.
  - unfold Server.callTool, try_catch, Server.dispatch. now rewrite Ec.
Qed.

(** The empty prefix would match the first task; it never gets that far. *)
Lemma short_taskId_rejected_witness :
  let w := Sample.world [Sample.t1; Sample.t2] in
  Tools.updateTask (Sample.update EmptyString (Some completed)) Sample.env w =
    (Throw (ZodError [taskIdTooShort]), w) /\
  Server.callTool (Server.delete_task {| TaskIdSchema.taskId := "7f3e9a1" |}) Sample.env w =
    (Return (textResult ("❌ Validation error: " +:+ taskIdTooShort)), w).
Proof.
  intros w.
  destruct (short_taskId_rejected Sample.env w
              (Sample.update EmptyString (Some completed))
              {| TaskIdSchema.taskId := "7f3e9a1" |})
    as (Hu & _ & _ & _ & Hd & _).
  - cbn. lia.
  - cbn. lia.
  - split; [exact Hu|exact Hd].
Defined.

(** ** Lookup by prefix *)

#[local] Arguments String.append : simpl never.
#[local] Arguments formatTask : simpl never.
#[local] Arguments JS.toISOString : simpl never.

Lemma findIndex_Some {A} (p : A -> bool) (l : list A) (i : nat) :
  JS.findIndex p l = Some i ->
  exists x, l !! i = Some x /\ p x = true /\
            forall j y, (j < i)%nat -> l !! j = Some y -> p y = false.
Proof.
  revert i. induction l as [|x l IH]; simpl; intros i Hi; [discriminate|].
  destruct (p x) eqn:Hpx.
  - injection Hi as <-. exists x. repeat split; [assumption|]. intros j y Hj. lia.
  - destruct (JS.findIndex p l) as [k|]; [|discriminate].
    injection Hi as <-. destruct (IH k eq_refl) as (y & Hy & Hpy & Hfirst).
    exists y. repeat split; try assumption.
    intros [|j] z Hj Hz; simpl in Hz.
    + now injection Hz as <-.
    + apply (Hfirst j); [lia|assumption].
Qed.


Section Lookup.
Context `{Intl}.

Lemma updateTask_found env w args i task :
  UpdateTaskSchema.issues args = [] ->
  JS.findIndex (Tools.matchesId (UpdateTaskSchema.taskId args)) (stored w) = Some i ->
  stored w !! i = Some task ->
  exists w1,
    tasksTable w1 = tasksTable w /\
    Tools.updateTask args env w =
    (Return (textResult
               ("✅ Task updated successfully!" +:+ nl +:+ nl +:+
                formatTask (Tools.applyUpdate args (JS.toISOString (clock env)) task))),
     written (<[i := Tools.applyUpdate args (JS.toISOString (clock env)) task]> (stored w))
       env w1).
Proof.
  intros Hi Hfind Hlook.
  destruct (loadTasks_returns env w) as (st & w1 & Hl & Ht & _ & Htb).
  exists w1. split; [assumption|].
  unfold Tools.updateTask, bind, UpdateTaskSchema.parse. rewrite Hi. cbn.
  rewrite Hl, Ht, Hfind, Hlook. reflexivity.
Qed.

Lemma updateTask_missing env w args :
  UpdateTaskSchema.issues args = [] ->
  JS.findIndex (Tools.matchesId (UpdateTaskSchema.taskId args)) (stored w) = None ->
  exists w1,
    tasksFile w1 = tasksFile w /\ tasksTable w1 = tasksTable w /\
    Tools.updateTask args env w =
    (Return (Tools.notFound (UpdateTaskSchema.taskId args)), w1).
Proof.
  intros Hi Hfind.
  destruct (loadTasks_returns env w) as (st & w1 & Hl & Ht & Hf & Htb).
  exists w1. repeat split; try assumption.
  unfold Tools.updateTask, bind, UpdateTaskSchema.parse. rewrite Hi. cbn.
  rewrite Hl, Ht, Hfind. reflexivity.
Qed.

Lemma deleteTask_found env w args i task :
  TaskIdSchema.issues args = [] ->
  JS.findIndex (Tools.matchesId (TaskIdSchema.taskId args)) (stored w) = Some i ->
  stored w !! i = Some task ->
  exists w1,
    tasksTable w1 = tasksTable w /\
    Tools.deleteTask args env w =
    (Return (textResult
               ("🗑️ Task " +:+ quote +:+ title task +:+ quote +:+
                " deleted successfully.")),
     written (JS.removeAt i (stored w)) env w1).
Proof.
  intros Hi Hfind Hlook.
  destruct (loadTasks_returns env w) as (st & w1 & Hl & Ht & _ & Htb).
  exists w1. split; [assumption|].
  unfold Tools.deleteTask, bind, TaskIdSchema.parse. rewrite Hi. cbn.
  rewrite Hl, Ht, Hfind, Hlook. reflexivity.
Qed.

Lemma deleteTask_missing env w args :
  TaskIdSchema.issues args = [] ->
  JS.findIndex (Tools.matchesId (TaskIdSchema.taskId args)) (stored w) = None ->
  exists w1,
    tasksFile w1 = tasksFile w /\ tasksTable w1 = tasksTable w /\
    Tools.deleteTask args env w =
    (Return (Tools.notFound (TaskIdSchema.taskId args)), w1).
Proof.
  intros Hi Hfind.
  destruct (loadTasks_returns env w) as (st & w1 & Hl & Ht & Hf & Htb).
  exists w1. repeat split; try assumption.
  unfold Tools.deleteTask, bind, TaskIdSchema.parse. rewrite Hi. cbn.
  rewrite Hl, Ht, Hfind. reflexivity.
Qed.

Lemma completeTask_found env w args i task :
  TaskIdSchema.issues args = [] ->
  JS.findIndex (Tools.matchesId (TaskIdSchema.taskId args)) (stored w) = Some i ->
  stored w !! i = Some task ->
  exists w1,
    tasksTable w1 = tasksTable w /\
    Tools.completeTask args env w =
    (Return (textResult
               ("✅ Task completed!" +:+ nl +:+ nl +:+
                formatTask (Tools.complete (JS.toISOString (clock env)) task))),
     written (<[i := Tools.complete (JS.toISOString (clock env)) task]> (stored w))
       env w1).
Proof.
  intros Hi Hfind Hlook.
  destruct (loadTasks_returns env w) as (st & w1 & Hl & Ht & _ & Htb).
  exists w1. split; [assumption|].
  unfold Tools.completeTask, bind, TaskIdSchema.parse. rewrite Hi. cbn.
  rewrite Hl, Ht, Hfind, Hlook. reflexivity.
Qed.

Lemma completeTask_missing env w args :
  TaskIdSchema.issues args = [] ->
  JS.findIndex (Tools.matchesId (TaskIdSchema.taskId args)) (stored w) = None ->
  exists w1,
    tasksFile w1 = tasksFile w /\ tasksTable w1 = tasksTable w /\
    Tools.completeTask args env w =
    (Return (Tools.notFound (TaskIdSchema.taskId args)), w1).
Proof.
  intros Hi Hfind.
  destruct (loadTasks_returns env w) as (st & w1 & Hl & Ht & Hf & Htb).
  exists w1. repeat split; try assumption.
  unfold Tools.completeTask, bind, TaskIdSchema.parse. rewrite Hi. cbn.
  rewrite Hl, Ht, Hfind. reflexivity.
Qed.
End Lookup.



(** ** The completion stamp *)

Lemma applyUpdate_status args now task :
  status (Tools.applyUpdate args now task) =
  match UpdateTaskSchema.status args with
  | Some s => s
  | None => status task
  end.
Proof.
  unfold Tools.applyUpdate, Tools.assign.
  destruct args as [tid [?|] [?|] [?|] [?|] [?|] [[]|]]; cbn;
    try reflexivity; now destruct (JS.truthy (completedAt task)).
Qed.

Lemma applyUpdate_completedAt args now task :
  completedAt (Tools.applyUpdate args now task) =
  match UpdateTaskSchema.status args with
  | Some completed => if JS.truthy (completedAt task) then completedAt task else Some now
  | Some _ => None
  | None => completedAt task
  end.
Proof.
  unfold Tools.applyUpdate, Tools.assign.
  destruct args as [tid [?|] [?|] [?|] [?|] [?|] [[]|]]; cbn;
    try reflexivity; now destruct (JS.truthy (completedAt task)).
Qed.

(** C1.  An update that resolves a task stores, at the task's place, the
    task with the assignments of the request applied.  On its
    [completedAt]: a request with status [completed] stamps the current
    time when the field is absent (undefined, null or empty); a request
    with any other status clears it, whatever it was; a request without a
    status leaves it as it was, whichever other fields it sets. *)
Theorem update_completedAt `{Intl} (env : Env) (w : World)
    (args : UpdateTaskSchema.input) (i : nat) (task : Task) :
  UpdateTaskSchema.issues args = [] ->
  JS.findIndex (Tools.matchesId (UpdateTaskSchema.taskId args)) (stored w) = Some i ->
  stored w !! i = Some task ->
  exists task',
    stored (snd (Tools.updateTask args env w)) !! i = Some task' /\
    task' = Tools.applyUpdate args (JS.toISOString (clock env)) task /\
    (UpdateTaskSchema.status args = Some completed -> absent (completedAt task) ->
     completedAt task' = Some (JS.toISOString (clock env))) /\
    (forall s, UpdateTaskSchema.status args = Some s -> s <> completed ->
               completedAt task' = None) /\
    (UpdateTaskSchema.status args = None -> completedAt task' = completedAt task).
Proof.
  intros Hi Hfind Hlook.
  destruct (updateTask_found env w args i task Hi Hfind Hlook) as (w1 & _ & ->).
  eexists. split; [|split; [reflexivity|]].
  - cbn [snd]. rewrite stored_written. apply list_lookup_insert_eq.
    now apply lookup_lt_Some in Hlook.
  - rewrite applyUpdate_completedAt. unfold absent. repeat split.
    + intros -> Habs. now rewrite Habs.
    + intros s -> Hs. now destruct s.
    + now intros ->.
Qed.

Lemma update_completedAt_witness :
  exists task',
    stored (snd (Tools.updateTask (Sample.update "7f3e9a10" (Some pending)) Sample.env
                   (Sample.world [Sample.t3]))) !! 0%nat = Some task' /\
    completedAt Sample.t3 = Some "2025-01-02T10:00:00.000Z" /\
    completedAt task' = None.
Proof.
  destruct (update_completedAt Sample.env (Sample.world [Sample.t3])
              (Sample.update "7f3e9a10" (Some pending)) 0 Sample.t3)
    as (task' & Hstored & _ & _ & Hclear & _).
  - reflexivity.
  - reflexivity.
  - reflexivity.
  - exists task'. repeat split; [exact Hstored|].
    apply (Hclear pending); [reflexivity|discriminate].
Defined.

(** ** What each operation does to the stored collection *)

Lemma parsed_cases {A} (issues : list string) (a : A) :
  (issues = [] /\ parsed issues a = ret a) \/
  (issues <> [] /\ parsed issues a = throw (ZodError issues)).
Proof. destruct issues; [left|right]; now split. Qed.

Lemma toISOString_present (ms : Z) : present (Some (JS.toISOString ms)).
Proof.
  unfold present, JS.toISOString, JS.truthy.
  destruct (JS.isoDate (JS.epochDay ms)); reflexivity.
Qed.

Section Effects.
Context `{Intl}.

Lemma createTask_effect env w args :
  (CreateTaskSchema.issues args <> [] /\
   Tools.createTask args env w = (Throw (ZodError (CreateTaskSchema.issues args)), w)) \/
  (CreateTaskSchema.issues args = [] /\
   exists task,
     stored (snd (Tools.createTask args env w)) = (stored w ++ [task])%list /\
     tasksTable (snd (Tools.createTask args env w)) = tasksTable w /\
     status task = pending /\ completedAt task = None /\
     id task = uuid env /\ createdAt task = JS.toISOString (clock env)).
Proof.
  unfold Tools.createTask, bind, CreateTaskSchema.parse.
  destruct (parsed_cases (CreateTaskSchema.issues args)
              {| CreateTaskSchema.title' := CreateTaskSchema.title args;
                 CreateTaskSchema.description' := CreateTaskSchema.description args;
                 CreateTaskSchema.priority' :=
                   match CreateTaskSchema.priority args with
                   | Some p => p
                   | None => medium
                   end;
                 CreateTaskSchema.category' := CreateTaskSchema.category args;
                 CreateTaskSchema.dueDate' := CreateTaskSchema.dueDate args |})
    as [[Hi ->]|[Hi ->]].
  - right. split; [assumption|].
    destruct (loadTasks_returns env w) as (st & w1 & Hl & Ht & _ & Htb).
    cbn. rewrite Hl. cbn. eexists. rewrite Ht.
    split; [reflexivity|]. now repeat split.
  - left. now split.
Qed.

Lemma listTasks_effect env w args :
  tasksFile (snd (Tools.listTasks args env w)) = tasksFile w /\
  tasksTable (snd (Tools.listTasks args env w)) = tasksTable w.
Proof.
  unfold Tools.listTasks, bind, ListTasksSchema.parse. cbn.
  destruct (loadTasks_returns env w) as (st & w1 & Hl & _ & Hf & Htb).
  rewrite Hl.
  destruct (length _ =? 0)%nat; cbn; now split.
Qed.

Lemma searchTasks_effect env w args :
  tasksFile (snd (Tools.searchTasks args env w)) = tasksFile w /\
  tasksTable (snd (Tools.searchTasks args env w)) = tasksTable w.
Proof.
  unfold Tools.searchTasks, bind, SearchSchema.parse.
  destruct (parsed_cases (SearchSchema.issues args) args) as [[Hi ->]|[Hi ->]];
    [|now split].
  cbn. destruct (loadTasks_returns env w) as (st & w1 & Hl & _ & Hf & Htb).
  rewrite Hl.
  destruct (length _ =? 0)%nat; cbn; now split.
Qed.

Lemma getTaskStats_run env w :
  exists w1,
    tasksFile w1 = tasksFile w /\ tasksTable w1 = tasksTable w /\
    Tools.getTaskStats env w =
    (Return (textResult
               (if (length (stored w) =? 0)%nat then Tools.noTasksYet
                else Tools.statsText (clock env) (later env) (stored w))), w1).
Proof.
  destruct (loadTasks_returns env w) as (st & w1 & Hl & Ht & Hf & Htb).
  exists w1. repeat split; try assumption.
  unfold Tools.getTaskStats, bind. rewrite Hl, Ht.
  destruct (length (stored w) =? 0)%nat; reflexivity.
Qed.

Lemma clearCompleted_run env w :
  exists w1,
    tasksTable w1 = tasksTable w /\ console (written [] env w1) = console w1 /\
    Tools.clearCompleted env w =
    (Return (textResult
               (Tools.clearedMessage
                  (length (stored w) -
                   length (List.filter (fun t => negb (Tools.hasStatus completed t))
                             (stored w)))
                  (length (List.filter (fun t => negb (Tools.hasStatus completed t))
                             (stored w))))),
     written (List.filter (fun t => negb (Tools.hasStatus completed t)) (stored w))
       env w1).
Proof.
  destruct (loadTasks_returns env w) as (st & w1 & Hl & Ht & _ & Htb).
  exists w1. repeat split; try assumption.
  unfold Tools.clearCompleted, bind. rewrite Hl, Ht. reflexivity.
Qed.

Lemma updateTask_effect env w args :
  stored (snd (Tools.updateTask args env w)) = stored w \/
  exists i task,
    stored w !! i = Some task /\
    stored (snd (Tools.updateTask args env w)) =
    <[i := Tools.applyUpdate args (JS.toISOString (clock env)) task]> (stored w).
Proof.
  destruct (parsed_cases (UpdateTaskSchema.issues args) args) as [[Hi Hp]|[Hi Hp]].
  - destruct (JS.findIndex (Tools.matchesId (UpdateTaskSchema.taskId args)) (stored w))
      as [i|] eqn:Hfind.
    + destruct (findIndex_Some _ _ _ Hfind) as (task & Hlook & _).
      destruct (updateTask_found env w args i task Hi Hfind Hlook) as (w1 & _ & ->).
      right. now exists i, task.
    + destruct (updateTask_missing env w args Hi Hfind) as (w1 & Hf & _ & ->).
      left. unfold stored. cbn [snd]. now rewrite Hf.
  - left. unfold Tools.updateTask, bind, UpdateTaskSchema.parse. now rewrite Hp.
Qed.

Lemma deleteTask_effect env w args :
  stored (snd (Tools.deleteTask args env w)) = stored w \/
  exists i, stored (snd (Tools.deleteTask args env w)) = JS.removeAt i (stored w).
Proof.
  destruct (parsed_cases (TaskIdSchema.issues args) args) as [[Hi Hp]|[Hi Hp]].
  - destruct (JS.findIndex (Tools.matchesId (TaskIdSchema.taskId args)) (stored w))
      as [i|] eqn:Hfind.
    + destruct (findIndex_Some _ _ _ Hfind) as (task & Hlook & _).
      destruct (deleteTask_found env w args i task Hi Hfind Hlook) as (w1 & _ & ->).
      right. now exists i.
    + destruct (deleteTask_missing env w args Hi Hfind) as (w1 & Hf & _ & ->).
      left. unfold stored. cbn [snd]. now rewrite Hf.
  - left. unfold Tools.deleteTask, bind, TaskIdSchema.parse. now rewrite Hp.
Qed.

Lemma completeTask_effect env w args :
  stored (snd (Tools.completeTask args env w)) = stored w \/
  exists i task,
    stored w !! i = Some task /\
    stored (snd (Tools.completeTask args env w)) =
    <[i := Tools.complete (JS.toISOString (clock env)) task]> (stored w).
Proof.
  destruct (parsed_cases (TaskIdSchema.issues args) args) as [[Hi Hp]|[Hi Hp]].
  - destruct (JS.findIndex (Tools.matchesId (TaskIdSchema.taskId args)) (stored w))
      as [i|] eqn:Hfind.
    + destruct (findIndex_Some _ _ _ Hfind) as (task & Hlook & _).
      destruct (completeTask_found env w args i task Hi Hfind Hlook) as (w1 & _ & ->).
      right. now exists i, task.
    + destruct (completeTask_missing env w args Hi Hfind) as (w1 & Hf & _ & ->).
      left. unfold stored. cbn [snd]. now rewrite Hf.
  - left. unfold Tools.completeTask, bind, TaskIdSchema.parse. now rewrite Hp.
Qed.

(** The dispatcher's handler adds no effect of its own. *)
Lemma callTool_world request env w :
  snd (Server.callTool request env w) = snd (Server.dispatch request env w).
Proof.
  unfold Server.callTool, try_catch.
  destruct (Server.dispatch request env w) as [[result|[errors|message]] w']; reflexivity.
Qed.
End Effects.

(** ** The invariant between [status] and [completedAt] *)

Lemma In_insert {A} (l : list A) (i : nat) (x y : A) :
  In y (<[i := x]> l) -> y = x \/ In y l.
Proof.
  revert i. induction l as [|z l IH]; intros [|i]; simpl; try tauto.
  - intros [<-|Hy]; auto.
  - intros [<-|Hy]; auto. destruct (IH i Hy); auto.
Qed.

Lemma In_removeAt {A} (l : list A) (i : nat) (y : A) :
  In y (JS.removeAt i l) -> In y l.
Proof.
  revert i. induction l as [|z l IH]; intros [|i]; simpl; try tauto.
  intros [<-|Hy]; eauto.
Qed.

Lemma In_lookup {A} (l : list A) (i : nat) (x : A) : l !! i = Some x -> In x l.
Proof.
  revert i. induction l as [|z l IH]; intros [|i]; simpl; try discriminate.
  - intros [= <-]. now left.
  - intros Hx. right. eauto.
Qed.

Lemma consistent_applyUpdate args ms task :
  consistent task ->
  consistent (Tools.applyUpdate args (JS.toISOString ms) task).
Proof.
  unfold consistent, present. intros Hc.
  pose proof (toISOString_present ms) as Hnow. unfold present in Hnow.
  rewrite applyUpdate_status, applyUpdate_completedAt.
  destruct (UpdateTaskSchema.status args) as [[]|]; cbn; try (split; discriminate);
    [|exact Hc].
  destruct (JS.truthy (completedAt task)) eqn:Ht; [now rewrite Ht|now rewrite Hnow].
Qed.

Lemma consistent_complete ms task :
  consistent (Tools.complete (JS.toISOString ms) task).
Proof.
  unfold consistent, Tools.complete. cbn. split; [reflexivity|].
  intros _. apply toISOString_present.
Qed.

(** C7.  If every task of the loaded collection has [completedAt] present
    exactly when its status is [completed], then so has every task of the
    collection stored after any call of a tool.  A created task is
    pending and carries no [completedAt]; a completed task gets the
    status and the stamp together; an update changes a task only by the
    assignments of its request; every other call leaves each task it
    keeps as it was. *)
Theorem completedAt_iff_completed `{Intl} (request : Server.CallToolRequest)
    (env : Env) (w : World) :
  let w' := snd (Server.callTool request env w) in
  let now := JS.toISOString (clock env) in
  Forall consistent (stored w) ->
  Forall consistent (stored w') /\
  match request with
  | Server.create_task args =>
      CreateTaskSchema.issues args = [] ->
      exists task,
        stored w' = (stored w ++ [task])%list /\
        status task = pending /\ completedAt task = None
  | Server.complete_task args =>
      forall i task,
        TaskIdSchema.issues args = [] ->
        JS.findIndex (Tools.matchesId (TaskIdSchema.taskId args)) (stored w) = Some i ->
        stored w !! i = Some task ->
        exists task',
          stored w' = <[i := task']> (stored w) /\
          status task' = completed /\ completedAt task' = Some now /\
          present (completedAt task')
  | Server.update_task args =>
      forall task',
        In task' (stored w') ->
        In task' (stored w) \/
        exists task, In task (stored w) /\ task' = Tools.applyUpdate args now task
  | _ => forall task, In task (stored w') -> In task (stored w)
  end.
Proof.
  intros w' now Hinv. subst w'. rewrite callTool_world.
  destruct request as [args|args|args|args|args|args| | |name]; cbn [Server.dispatch].
  - (* create *)
    destruct (createTask_effect env w args) as [[Hi ->]|[Hi (task & -> & _ & Hs & Hc & _)]].
    + split; [exact Hinv|]. intros Hi'. contradiction.
    + split.
      * apply Forall_app. split; [exact Hinv|].
        constructor; [|constructor]. unfold consistent, present. rewrite Hs, Hc.
        cbn. split; discriminate.
      * intros _. now exists task.
  - (* list *)
    destruct (listTasks_effect env w args) as [Hf _].
    unfold stored. rewrite Hf. now split.
  - (* update *)
    destruct (updateTask_effect env w args) as [->|(i & task & Hlook & ->)].
    + split; [exact Hinv|]. intros task' Ht. now left.
    + split.
      * apply Forall_insert; [exact Hinv|]. apply consistent_applyUpdate.
        rewrite List.Forall_forall in Hinv. apply Hinv. exact (In_lookup _ _ _ Hlook).
      * intros task' Ht. apply In_insert in Ht as [->|Ht]; [right|now left].
        exists task. split; [exact (In_lookup _ _ _ Hlook)|reflexivity].
  - (* delete *)
    destruct (deleteTask_effect env w args) as [->|(i & ->)].
    + now split.
    + split; [|intros task; apply In_removeAt].
      rewrite List.Forall_forall in *. intros task Ht. apply Hinv.
      exact (In_removeAt _ _ _ Ht).
  - (* complete *)
    split.
    + destruct (completeTask_effect env w args) as [->|(i & task & Hlook & ->)];
        [exact Hinv|].
      apply Forall_insert; [exact Hinv|apply consistent_complete].
    + intros i task Hi Hfind Hlook.
      destruct (completeTask_found env w args i task Hi Hfind Hlook) as (w1 & _ & ->).
      eexists. split; [reflexivity|]. repeat split. apply toISOString_present.
  - (* search *)
    destruct (searchTasks_effect env w args) as [Hf _].
    unfold stored. rewrite Hf. now split.
  - (* stats *)
    destruct (getTaskStats_run env w) as (w1 & Hf & _ & ->).
    unfold stored. cbn [snd]. rewrite Hf. now split.
  - (* clear *)
    destruct (clearCompleted_run env w) as (w1 & _ & _ & ->).
    cbn [snd]. rewrite stored_written. split.
    + rewrite List.Forall_forall in *. intros task Ht. apply Hinv.
      now apply List.filter_In in Ht.
    + intros task Ht. now apply List.filter_In in Ht.
  - (* unknown tool *)
    now split.
Qed.

Lemma completedAt_iff_completed_witness :
  Forall consistent
    (stored (snd (Server.callTool
                    (Server.update_task (Sample.update "7f3e9a10" (Some completed)))
                    Sample.env (Sample.world [Sample.t1; Sample.t2; Sample.t3])))).
Proof.
  apply (completedAt_iff_completed
           (Server.update_task (Sample.update "7f3e9a10" (Some completed)))
           Sample.env (Sample.world [Sample.t1; Sample.t2; Sample.t3])).
  repeat constructor; unfold consistent, present; cbn; try discriminate; reflexivity.
Defined.

(** ** Clearing the completed tasks *)

Lemma Status_eqb_eq (a b : Status) : Status_eqb a b = true <-> a = b.
Proof. destruct a, b; cbn; split; congruence. Qed.

Lemma Priority_eqb_eq (a b : Priority) : Priority_eqb a b = true <-> a = b.
Proof. destruct a, b; cbn; split; congruence. Qed.

Lemma count_split (p : Task -> bool) (l : list Task) :
  length l = (Tools.count p l + Tools.count (fun t => negb (p t)) l)%nat.
Proof.
  unfold Tools.count. induction l as [|t l IH]; [reflexivity|].
  cbn. destruct (p t); cbn; lia.
Qed.

Lemma filter_sublist {A} (p : A -> bool) (l : list A) : sublist (List.filter p l) l.
Proof.
  induction l as [|x l IH]; cbn; [constructor|].
  destruct (p x); now constructor.
Qed.

(** C8.  Clearing stores the tasks that are not completed, in their
    order, and nothing else; the tasks that went are exactly the
    completed ones.  The text counts those and the tasks left, and is the
    fixed nothing-to-clear text when none went; the collection is
    written back in either case.  With three completed tasks and two
    others the text is the broom followed by
    [Cleared 3 completed task(s). 2 active task(s) remaining.] *)
Theorem clearCompleted_removes_completed `{Intl} (env : Env) (w : World) :
  let kept := List.filter notCompleted (stored w) in
  let removed := Tools.count (Tools.hasStatus completed) (stored w) in
  let w' := snd (Tools.clearCompleted env w) in
  tasksFile w' = Json {| tasks := kept; lastUpdated := JS.toISOString (clock env) |} /\
  (forall t, In t kept <-> In t (stored w) /\ status t <> completed) /\
  sublist kept (stored w) /\
  length (stored w) = (removed + length kept)%nat /\
  fst (Tools.clearCompleted env w) =
    Return (textResult
              (if (0 <? removed)%nat
               then "🧹 Cleared " +:+ JS.showNat removed +:+ " completed task(s). " +:+
                    JS.showNat (length kept) +:+ " active task(s) remaining."
               else "No completed tasks to clear.")) /\
  (removed = 3%nat -> length kept = 2%nat ->
   fst (Tools.clearCompleted env w) =
     Return (textResult "🧹 Cleared 3 completed task(s). 2 active task(s) remaining.")).
Proof.
  intros kept removed w'.
  assert (Hlen : length (stored w) = (removed + length kept)%nat).
  { subst removed kept. rewrite (count_split (Tools.hasStatus completed) (stored w)).
    reflexivity. }
  assert (Htext : fst (Tools.clearCompleted env w) =
    Return (textResult
              (if (0 <? removed)%nat
               then "🧹 Cleared " +:+ JS.showNat removed +:+ " completed task(s). " +:+
                    JS.showNat (length kept) +:+ " active task(s) remaining."
               else "No completed tasks to clear."))).
  { destruct (clearCompleted_run env w) as (w1 & _ & _ & ->). cbn [fst].
    fold notCompleted. fold kept. unfold Tools.clearedMessage.
    replace (length (stored w) - length kept)%nat with removed by lia. reflexivity. }
  split; [|split; [|split; [|split; [|split]]]].
  - subst w'. destruct (clearCompleted_run env w) as (w1 & _ & _ & ->). reflexivity.
  - intros t. subst kept. rewrite List.filter_In. unfold notCompleted.
    rewrite negb_true_iff. unfold Tools.hasStatus.
    destruct (Status_eqb (status t) completed) eqn:He.
    + apply Status_eqb_eq in He. split; [intros [_ ?]; discriminate|tauto].
    + split; [|tauto]. intros [Hin _]. split; [assumption|].
      intros Hc. apply Status_eqb_eq in Hc. congruence.
  - apply filter_sublist.
  - exact Hlen.
  - exact Htext.
  - intros Hr Hk. rewrite Htext, Hr, Hk. reflexivity.
Qed.

Lemma clearCompleted_removes_completed_witness :
  let before :=
    [Sample.t3; Sample.t1; Sample.task "c2" low None completed (Some "2025-01-05T00:00:00.000Z");
     Sample.t2; Sample.task "c3" high None completed (Some "2025-01-06T00:00:00.000Z")] in
  stored (snd (Tools.clearCompleted Sample.env (Sample.world before))) =
    [Sample.t1; Sample.t2] /\
  fst (Tools.clearCompleted Sample.env (Sample.world before)) =
    Return (textResult "🧹 Cleared 3 completed task(s). 2 active task(s) remaining.").
Proof.
  intros before.
  destruct (clearCompleted_removes_completed Sample.env (Sample.world before))
    as (Hfile & _ & _ & _ & _ & Hmsg).
  split.
  - unfold stored. rewrite Hfile. reflexivity.
  - apply Hmsg; reflexivity.
Defined.

(** ** The indexed-table backend *)

Lemma forEach_insertOrReplace env w l :
  forEach StorageDb.insertOrReplace l env w =
  (Return tt,
   {| tasksFile := tasksFile w; tasksTable := upserted (tasksTable w) l;
      console := console w |}).
Proof.
  revert w. induction l as [|task l IH]; intros w.
  - now destruct w.
  - cbn [forEach]. unfold bind. cbn. rewrite IH. reflexivity.
Qed.

Lemma upserted_snoc table l task :
  upserted table (l ++ [task]) = <[id task := StorageDb.row task]> (upserted table l).
Proof. unfold upserted. now rewrite fold_left_app. Qed.

Lemma upserted_other table l k :
  (forall task, In task l -> id task <> k) -> upserted table l !! k = table !! k.
Proof.
  induction l as [|task l IH] using rev_ind; intros Hk; [reflexivity|].
  rewrite upserted_snoc, lookup_insert_ne.
  - apply IH. intros t Ht. apply Hk, in_or_app. now left.
  - apply Hk, in_or_app. right. now left.
Qed.

Lemma upserted_some table l task :
  In task l ->
  exists last, In last l /\ id last = id task /\
               upserted table l !! id task = Some (StorageDb.row last).
Proof.
  induction l as [|x l IH] using rev_ind; intros Hin; [contradiction|].
  rewrite upserted_snoc.
  destruct (decide (id x = id task)) as [He|Hne].
  - exists x. rewrite <- He, lookup_insert_eq. repeat split; try assumption.
    apply in_or_app. right. now left.
  - apply in_app_or in Hin as [Hin|[->|[]]]; [|congruence].
    destruct (IH Hin) as (last & Hl & Hid & Hlook).
    exists last. rewrite lookup_insert_ne by assumption.
    repeat split; try assumption. apply in_or_app. now left.
Qed.

Lemma upserted_own table l task :
  NoDup (List.map id l) -> In task l ->
  upserted table l !! id task = Some (StorageDb.row task).
Proof.
  induction l as [|x l IH] using rev_ind; intros Hnd Hin; [contradiction|].
  rewrite upserted_snoc. rewrite List.map_app in Hnd. cbn in Hnd.
  apply NoDup_app in Hnd as (Hl & Hdisj & _).
  apply in_app_or in Hin as [Hin|[->|[]]].
  - rewrite lookup_insert_ne; [now apply IH|].
    intros He. apply (Hdisj (id task)).
    + apply list_elem_of_In, in_map, Hin.
    + rewrite <- He. apply list_elem_of_In. now left.
  - apply lookup_insert_eq.
Qed.

(** A transaction whose body throws leaves the table as it found it. *)
Lemma transaction_rollback {A} (body : Async A) env w e w1 :
  body env w = (Throw e, w1) ->
  tasksTable (snd (StorageDb.transaction body env w)) = tasksTable w.
Proof. intros Hb. unfold StorageDb.transaction. now rewrite Hb. Qed.

(** C3.  [saveTasks] of the indexed-table backend runs to the end and
    commits.  Afterwards every task of the input has a row under its id:
    the row of the last input task with that id, so its own row when the
    ids of the input are distinct.  Under every id that does not occur
    in the input the table holds what it held before, present or not and
    field by field; nothing is deleted.  The snapshot document is not
    touched. *)
Theorem saveTasks_upserts_and_keeps (env : Env) (w : World) (storage : TaskStorage) :
  let w' := snd (StorageDb.saveTasks storage env w) in
  fst (StorageDb.saveTasks storage env w) = Return tt /\
  (forall task,
      In task (tasks storage) ->
      exists last,
        In last (tasks storage) /\ id last = id task /\
        tasksTable w' !! id task = Some (StorageDb.row last)) /\
  (NoDup (List.map id (tasks storage)) ->
   forall task,
     In task (tasks storage) -> tasksTable w' !! id task = Some (StorageDb.row task)) /\
  (forall k,
      (forall task, In task (tasks storage) -> id task <> k) ->
      tasksTable w' !! k = tasksTable w !! k) /\
  tasksFile w' = tasksFile w.
Proof.
  intros w'. subst w'.
  unfold StorageDb.saveTasks, StorageDb.transaction.
  rewrite forEach_insertOrReplace. cbn [fst snd tasksTable tasksFile].
  repeat split.
  - intros task. apply upserted_some.
  - intros Hnd task. now apply upserted_own.
  - intros k. apply upserted_other.
Qed.

Lemma saveTasks_upserts_and_keeps_witness :
  let before :=
    {| tasksFile := Absent;
       tasksTable := {[ id Sample.t1 := Sample.t1; id Sample.t2 := Sample.t2 ]};
       console := [] |} in
  let after :=
    snd (StorageDb.saveTasks {| tasks := [Sample.t3]; lastUpdated := EmptyString |}
           Sample.env before) in
  tasksTable after !! id Sample.t1 = Some Sample.t1 /\
  tasksTable after !! id Sample.t3 = Some (StorageDb.row Sample.t3).
Proof.
  intros before after.
  destruct (saveTasks_upserts_and_keeps Sample.env before
              {| tasks := [Sample.t3]; lastUpdated := EmptyString |})
    as (_ & _ & Hown & Hkeep & _).
  split.
  - subst after. rewrite (Hkeep (id Sample.t1)).
    + reflexivity.
    + intros task [<-|[]]. discriminate.
  - apply Hown.
    + repeat constructor. intros Hin. inversion Hin.
    + now left.
Defined.

(** ** The operations and the storage router *)

Section Router.
Context `{Intl}.

Lemma dispatch_keeps_table request env w :
  tasksTable (snd (Server.dispatch request env w)) = tasksTable w.
Proof.
  destruct request as [args|args|args|args|args|args| | |name]; cbn [Server.dispatch].
  - destruct (createTask_effect env w args) as [[_ ->]|[_ (task & _ & Ht & _)]];
      [reflexivity|exact Ht].
  - apply listTasks_effect.
  - destruct (parsed_cases (UpdateTaskSchema.issues args) args) as [[Hi Hp]|[Hi Hp]].
    + destruct (JS.findIndex (Tools.matchesId (UpdateTaskSchema.taskId args)) (stored w))
        as [i|] eqn:Hfind.
      * destruct (findIndex_Some _ _ _ Hfind) as (task & Hlook & _).
        destruct (updateTask_found env w args i task Hi Hfind Hlook) as (w1 & Ht & ->).
        exact Ht.
      * destruct (updateTask_missing env w args Hi Hfind) as (w1 & _ & Ht & ->).
        exact Ht.
    + unfold Tools.updateTask, bind, UpdateTaskSchema.parse. now rewrite Hp.
  - destruct (parsed_cases (TaskIdSchema.issues args) args) as [[Hi Hp]|[Hi Hp]].
    + destruct (JS.findIndex (Tools.matchesId (TaskIdSchema.taskId args)) (stored w))
        as [i|] eqn:Hfind.
      * destruct (findIndex_Some _ _ _ Hfind) as (task & Hlook & _).
        destruct (deleteTask_found env w args i task Hi Hfind Hlook) as (w1 & Ht & ->).
        exact Ht.
      * destruct (deleteTask_missing env w args Hi Hfind) as (w1 & _ & Ht & ->).
        exact Ht.
    + unfold Tools.deleteTask, bind, TaskIdSchema.parse. now rewrite Hp.
  - destruct (parsed_cases (TaskIdSchema.issues args) args) as [[Hi Hp]|[Hi Hp]].
    + destruct (JS.findIndex (Tools.matchesId (TaskIdSchema.taskId args)) (stored w))
        as [i|] eqn:Hfind.
      * destruct (findIndex_Some _ _ _ Hfind) as (task & Hlook & _).
        destruct (completeTask_found env w args i task Hi Hfind Hlook) as (w1 & Ht & ->).
        exact Ht.
      * destruct (completeTask_missing env w args Hi Hfind) as (w1 & _ & Ht & ->).
        exact Ht.
    + unfold Tools.completeTask, bind, TaskIdSchema.parse. now rewrite Hp.
  - apply searchTasks_effect.
  - destruct (getTaskStats_run env w) as (w1 & _ & Ht & ->). exact Ht.
  - destruct (clearCompleted_run env w) as (w1 & Ht & _ & ->). exact Ht.
  - reflexivity.
Qed.

Lemma readTasksResource_database env w :
  StorageRouter.storageModule env = StorageRouter.DatabaseStorage ->
  fst (Server.readTasksResource env w) = Return (map_to_list (tasksTable w)).*2.
Proof.
  intros Hdb. unfold Server.readTasksResource, bind, StorageRouter.loadTasks.
  now rewrite Hdb.
Qed.
End Router.

(** C2.  What the code does when the router selects the database: no
    call of a tool reads or writes the table.  The tools load and save
    through the snapshot backend they import, so a created task lands in
    the snapshot document, while the resource listing, which does go
    through the router, still shows the table as it was. *)
Theorem tools_bypass_selected_backend `{Intl} (request : Server.CallToolRequest)
    (env : Env) (w : World) :
  StorageRouter.storageModule env = StorageRouter.DatabaseStorage ->
  let w' := snd (Server.callTool request env w) in
  tasksTable w' = tasksTable w /\
  fst (Server.readTasksResource env w') = fst (Server.readTasksResource env w) /\
  (forall args,
      request = Server.create_task args -> CreateTaskSchema.issues args = [] ->
      exists task, stored w' = (stored w ++ [task])%list).
Proof.
  intros Hdb w'. subst w'. rewrite callTool_world.
  pose proof (dispatch_keeps_table request env w) as Ht.
  repeat split.
  - exact Ht.
  - rewrite !(readTasksResource_database _ _ Hdb). now rewrite Ht.
  - intros args -> Hi. cbn [Server.dispatch].
    destruct (createTask_effect env w args) as [[Hne _]|[_ (task & Hs & _)]];
      [contradiction|]. now exists task.
Qed.

Lemma tools_bypass_selected_backend_witness :
  let args :=
    {| CreateTaskSchema.title := "Write report"; CreateTaskSchema.description := None;
       CreateTaskSchema.priority := None; CreateTaskSchema.category := None;
       CreateTaskSchema.dueDate := None |} in
  let before := {| tasksFile := Absent; tasksTable := ∅; console := [] |} in
  let after := snd (Server.callTool (Server.create_task args) Sample.env before) in
  StorageRouter.storageModule Sample.env = StorageRouter.DatabaseStorage /\
  tasksTable after = ∅ /\
  (exists task, stored after = [task]) /\
  fst (Server.readTasksResource Sample.env after) = Return [].
Proof.
  intros args before after.
  destruct (tools_bypass_selected_backend (Server.create_task args) Sample.env before
              eq_refl) as (Htable & Hread & Hcreate).
  split; [reflexivity|]. split; [exact Htable|]. split.
  - destruct (Hcreate args eq_refl eq_refl) as (task & Hs). now exists task.
  - subst after. rewrite Hread. reflexivity.
Defined.

(** ** The order of a listing *)

Section ListOrder.
Context `{Intl}.

Lemma localeCompare_total (a b : string) :
  (localeCompare a b <= 0)%Z \/ (localeCompare b a <= 0)%Z.
Proof. pose proof (localeCompare_antisym a b). lia. Qed.

Lemma compareTasks_le (a b : Task) :
  (Tools.compareTasks a b <= 0)%Z <->
  (Tools.priorityOrder (priority a) < Tools.priorityOrder (priority b))%Z \/
  (Tools.priorityOrder (priority a) = Tools.priorityOrder (priority b) /\
   (localeCompare (dueKey a) (dueKey b) <= 0)%Z).
Proof.
  unfold Tools.compareTasks, dueKey.
  destruct (Z.eqb_spec
              (Tools.priorityOrder (priority a) - Tools.priorityOrder (priority b)) 0)
    as [He|Hne]; cbn; lia.
Qed.

Lemma compareTasks_total (a b : Task) :
  (Tools.compareTasks a b <= 0)%Z \/ (Tools.compareTasks b a <= 0)%Z.
Proof.
  rewrite !compareTasks_le.
  destruct (localeCompare_total (dueKey a) (dueKey b)); lia.
Qed.

Lemma compareTasks_trans (a b c : Task) :
  (Tools.compareTasks a b <= 0)%Z -> (Tools.compareTasks b c <= 0)%Z ->
  (Tools.compareTasks a c <= 0)%Z.
Proof.
  rewrite !compareTasks_le. intros [Hab|[Hab Lab]] [Hbc|[Hbc Lbc]]; try lia.
  right. split; [lia|]. exact (localeCompare_trans _ _ _ Lab Lbc).
Qed.

Lemma compareTasks_listOrder (a b : Task) :
  schemaDate a -> schemaDate b ->
  (Tools.compareTasks a b <= 0)%Z -> listOrder a b.
Proof.
  unfold schemaDate, listOrder. intros Ha Hb. rewrite compareTasks_le.
  intros [Hlt|[Heq Hle]]; [now left|right]. split; [assumption|].
  rewrite <- (localeCompare_dates _ _ Ha Hb). now apply Z.leb_le.
Qed.

Lemma Forall_filter {A} (P : A -> Prop) (f : A -> bool) (l : list A) :
  Forall P l -> Forall P (List.filter f l).
Proof.
  rewrite !List.Forall_forall. intros HP x Hx. apply HP.
  now apply List.filter_In in Hx.
Qed.

Lemma applyFilters_Forall (P : Task -> Prop) validated l :
  Forall P l -> Forall P (Tools.applyFilters validated l).
Proof.
  intros HP. unfold Tools.applyFilters.
  destruct (JS.truthy _), (ListTasksSchema.status' validated),
    (ListTasksSchema.priority' validated);
    repeat apply Forall_filter; exact HP.
Qed.

Lemma listTasks_run env w args :
  let validated :=
    {| ListTasksSchema.status' :=
         match args with
         | Some {| ListTasksSchema.status := Some s |} => s
         | _ => All
         end;
       ListTasksSchema.priority' :=
         match args with
         | Some {| ListTasksSchema.priority := Some p |} => p
         | _ => All
         end;
       ListTasksSchema.category' :=
         match args with
         | Some a => ListTasksSchema.category a
         | None => None
         end |} in
  fst (Tools.listTasks args env w) =
  Return (textResult
            (if (length (Tools.applyFilters validated (stored w)) =? 0)%nat
             then "No tasks found matching the criteria."
             else "📋 Found " +:+
                  JS.showNat (length (Tools.listed validated (stored w))) +:+
                  " task(s):" +:+ nl +:+ nl +:+
                  Tools.formatAll (Tools.listed validated (stored w)) +:+
                  Tools.summary (stored w))).
Proof.
  intros validated.
  destruct (loadTasks_returns env w) as (st & w1 & Hl & Ht & _).
  unfold Tools.listTasks, bind, ListTasksSchema.parse.
  assert (Hv : forall e w0,
             ret {| ListTasksSchema.status' :=
                      match ListTasksSchema.status
                              match args with
                              | Some a => a
                              | None => ListTasksSchema.empty
                              end with
                      | Some s => s
                      | None => All
                      end;
                    ListTasksSchema.priority' :=
                      match ListTasksSchema.priority
                              match args with
                              | Some a => a
                              | None => ListTasksSchema.empty
                              end with
                      | Some p => p
                      | None => All
                      end;
                    ListTasksSchema.category' :=
                      ListTasksSchema.category
                        match args with
                        | Some a => a
                        | None => ListTasksSchema.empty
                        end |} e w0 = (Return validated, w0)).
  { intros e w0. subst validated. unfold ret.
    destruct args as [[[s|] [p|] c]|]; reflexivity. }
  rewrite Hv, Hl, Ht.
  destruct (length _ =? 0)%nat; reflexivity.
Qed.
End ListOrder.

(** C5, as stated, fails.  Two tasks of medium priority, the first
    without a due date and the second due on [9999-99-99], a date the
    schema admits: their keys tie, the stable sort keeps the input order,
    and the task without a due date is listed before the one that has
    one. *)
Lemma undated_before_dated :
  let a := Sample.task "a" medium None pending None in
  let b := Sample.task "b" medium (Some "9999-99-99") pending None in
  JS.matchesDate "9999-99-99" = true /\
  Tools.listed noFilter [a; b] = [a; b] /\
  ~ undatedLast (Tools.listed noFilter [a; b]).
Proof.
  intros a b. split; [reflexivity|]. split; [reflexivity|].
  intros Hlast.
  specialize (Hlast [] a [b] b eq_refl (or_introl eq_refl) eq_refl eq_refl).
  discriminate Hlast.
Qed.

(** The same holds under every collation, since a string ties with
    itself. *)
Lemma sentinel_tie_in_any_locale `{Intl} :
  let a := Sample.task "a" medium None pending None in
  let b := Sample.task "b" medium (Some "9999-99-99") pending None in
  Tools.listed noFilter [a; b] = [a; b].
Proof.
  intros a b. unfold Tools.listed, JS.sort. cbn.
  unfold Tools.compareTasks. cbn.
  now rewrite localeCompare_refl.
Qed.

(** C5, amended.  When the due dates of the collection are of the shape
    the schemas admit, the listing is the filtered collection rearranged
    in ascending order of priority rank (high 0, medium 1, low 2), tasks
    of one rank in ascending code-unit order of their due date, with
    [9999-99-99] standing in for a missing one.  So a task without a due
    date comes after every task of its priority whose due date is before
    [9999-99-99]; against a due date equal to that sentinel it ties, and
    tasks that tie keep the order they had in the collection. *)
Theorem listed_sorted `{Intl} (validated : ListTasksSchema.output) (all : list Task) :
  Forall schemaDate all ->
  let out := Tools.listed validated all in
  Permutation out (Tools.applyFilters validated all) /\
  StronglySorted listOrder out /\
  (forall l1 a l2 b d,
      out = (l1 ++ a :: l2)%list -> In b l2 -> priority a = priority b ->
      absent (dueDate a) -> dueDate b = Some d -> present (dueDate b) ->
      JS.lt d Tools.sentinel = false) /\
  (forall z,
      List.filter (ties Tools.compareTasks z) out =
      List.filter (ties Tools.compareTasks z) (Tools.applyFilters validated all)).
Proof.
  intros Hall out.
  assert (Hperm : Permutation out (Tools.applyFilters validated all)).
  { apply sort_Permutation. }
  assert (Hdates : Forall schemaDate out).
  { eapply Permutation_Forall; [symmetry; exact Hperm|].
    now apply applyFilters_Forall. }
  assert (Hsorted : StronglySorted listOrder out).
  { apply (StronglySorted_impl_In (fun a b => (Tools.compareTasks a b <= 0)%Z)).
    - rewrite List.Forall_forall in Hdates.
      intros a b Ha Hb. apply compareTasks_listOrder; now apply Hdates.
    - apply sort_sorted; [apply compareTasks_total|apply compareTasks_trans]. }
  split; [assumption|]. split; [assumption|]. split;
    [|intros z; apply sort_stable, compareTasks_trans].
  intros l1 a l2 b d Hout Hb Hprio Ha Hd Hpres.
  rewrite Hout in Hsorted.
  pose proof (StronglySorted_after _ _ _ _ _ Hsorted Hb) as [Hlt|[_ Hle]].
  - rewrite Hprio in Hlt. lia.
  - apply string_leb_not_ltb.
    unfold dueKey, JS.orElse, absent, present, JS.truthy in *.
    rewrite Hd in Hle, Hpres.
    destruct (dueDate a) as [da|].
    + destruct (String.eqb da EmptyString); [|discriminate].
      destruct (String.eqb d EmptyString); [discriminate|]. exact Hle.
    + destruct (String.eqb d EmptyString); [discriminate|]. exact Hle.
Qed.

Lemma listed_sorted_witness :
  let all := [Sample.t1; Sample.t2; Sample.t3] in
  StronglySorted listOrder (Tools.listed noFilter all) /\
  Tools.listed noFilter all = [Sample.t2; Sample.t3; Sample.t1].
Proof.
  intros all. split; [|reflexivity].
  apply (listed_sorted noFilter all).
  repeat constructor.
Defined.

(** ** Statistics *)

(** *** The category counts *)












(** *** Today and a week from now *)










(** *** The completion rate

    [SpecFloat] gives the operations of binary64 as programs; what
    follows derives, for the numbers that arise here, that each of the
    division and the multiplication moves the exact result by at most
    one part in [2 ^ 52], which keeps the rendered tenth a nearest one
    for every collection an array can hold. *)

Section Binary64.
Local Open Scope Z_scope.






















End Binary64.

Lemma count_le (p : Task -> bool) (l : list Task) : (Tools.count p l <= length l)%nat.
Proof. rewrite (count_split p l). lia. Qed.


(** *** Counts *)

Lemma count_by_status (l : list Task) :
  length l =
  (Tools.count (Tools.hasStatus pending) l + Tools.count (Tools.hasStatus in_progress) l +
   Tools.count (Tools.hasStatus completed) l)%nat.
Proof.
  unfold Tools.count, Tools.hasStatus. induction l as [|t l IH]; [reflexivity|].
  cbn. destruct (status t); cbn; lia.
Qed.


Lemma truthy_Some (d : string) : JS.truthy (Some d) = true <-> d <> EmptyString.
Proof.
  cbn. destruct (String.eqb_spec d EmptyString); cbn; split; congruence.
Qed.

Lemma notCompleted_iff (t : Task) :
  negb (Tools.hasStatus completed t) = true <-> status t <> completed.
Proof.
  unfold Tools.hasStatus. rewrite negb_true_iff.
  destruct (Status_eqb (status t) completed) eqn:He.
  - apply Status_eqb_eq in He. split; congruence.
  - split; [|reflexivity]. intros _ Hc. apply Status_eqb_eq in Hc. congruence.
Qed.



Section Statistics.
Context `{Intl}.

End Statistics.

(** *** Counting against a property *)

Lemma Counted_count (P : Task -> Prop) (p : Task -> bool) (l : list Task) :
  (forall t, p t = true <-> P t) -> Counted P l (Tools.count p l).
Proof.
  intros Hp. unfold Tools.count. induction l as [|t l IH]; cbn; [constructor|].
  destruct (p t) eqn:E.
  - cbn. constructor; [now apply Hp|exact IH].
  - apply Counted_out; [|exact IH]. intros HP. apply Hp in HP. congruence.
Qed.

Lemma Counted_unique (P : Task -> Prop) (l : list Task) (n m : nat) :
  Counted P l n -> Counted P l m -> n = m.
Proof.
  intros Hn. revert m. induction Hn as [|t l n Ht Hn IH|t l n Ht Hn IH];
    intros m Hm; inversion Hm; subst; try contradiction; auto.
Qed.





(** * Further properties of the storage backends *)

(** ** The snapshot backend: save and load *)

(** X1.  Whatever the document was, missing and unreadable included, a save
    followed by a load returns the saved tasks in their order, stamped
    with the time of the save; tasks that were in the document and are
    not in the saved collection are gone.  The load after a save writes
    nothing to the console. *)
Theorem snapshot_save_then_load (env : Env) (w : World) (storage : TaskStorage) :
  let w1 := snd (Storage.saveTasks storage env w) in
  fst (Storage.saveTasks storage env w) = Return tt /\
  Storage.loadTasks env w1 =
    (Return {| tasks := tasks storage; lastUpdated := JS.toISOString (clock env) |}, w1) /\
  stored w1 = tasks storage /\
  tasksTable w1 = tasksTable w /\ console w1 = console w.
Proof.
  intros w1. subst w1. rewrite saveTasks_run. cbn [fst snd].
  split; [reflexivity|]. split; [|now repeat split].
  now apply loadTasks_Json.
Qed.

(** ** The indexed backend *)

Lemma orNull_idempotent (o : option string) :
  StorageDb.orNull (StorageDb.orNull o) = StorageDb.orNull o.
Proof.
  unfold StorageDb.orNull. destruct (JS.truthy o) eqn:Ho; [now rewrite Ho|reflexivity].
Qed.

Lemma row_idempotent (task : Task) : StorageDb.row (StorageDb.row task) = StorageDb.row task.
Proof. unfold StorageDb.row. cbn. now rewrite !orNull_idempotent. Qed.

Lemma tableOk_empty : tableOk ∅.
Proof. intros k t Hlook. now rewrite lookup_empty in Hlook. Qed.

Lemma tableOk_insert table task :
  tableOk table -> tableOk (<[id task := StorageDb.row task]> table).
Proof.
  intros Hok k t. destruct (decide (id task = k)) as [<-|Hne].
  - rewrite lookup_insert_eq. intros [= <-]. split; [reflexivity|apply row_idempotent].
  - rewrite lookup_insert_ne by assumption. apply Hok.
Qed.

Lemma tableOk_upserted table l : tableOk table -> tableOk (upserted table l).
Proof.
  revert table. induction l as [|task l IH]; intros table Hok; [exact Hok|].
  apply IH, tableOk_insert, Hok.
Qed.

Lemma tableOk_delete table k : tableOk table -> tableOk (delete k table).
Proof.
  intros Hok k' t Hlook. apply Hok.
  destruct (decide (k = k')) as [<-|Hne].
  - now rewrite lookup_delete_eq in Hlook.
  - now rewrite lookup_delete_ne in Hlook.
Qed.

Lemma saveTasks_db_run storage env w :
  StorageDb.saveTasks storage env w =
  (Return tt,
   {| tasksFile := tasksFile w; tasksTable := upserted (tasksTable w) (tasks storage);
      console := console w |}).
Proof.
  unfold StorageDb.saveTasks, StorageDb.transaction.
  now rewrite forEach_insertOrReplace.
Qed.

(** X2.  The empty table is well formed, and [saveTask], [saveTasks] and
    [deleteTask] keep a table well formed: every row stays filed under
    its own id, with its empty optional columns stored as null. *)
Theorem table_stays_well_formed (env : Env) (w : World) (task : Task)
    (storage : TaskStorage) (taskId : string) :
  tableOk ∅ /\
  (tableOk (tasksTable w) ->
   tableOk (tasksTable (snd (StorageDb.saveTask task env w))) /\
   tableOk (tasksTable (snd (StorageDb.saveTasks storage env w))) /\
   tableOk (tasksTable (snd (StorageDb.deleteTask taskId env w)))).
Proof.
  split.
  - apply tableOk_empty.
  - intros Hok. split; [|split].
    + now apply tableOk_insert.
    + rewrite saveTasks_db_run. now apply tableOk_upserted.
    + now apply tableOk_delete.
Qed.

Lemma table_stays_well_formed_witness :
  tableOk (tasksTable (snd (StorageDb.saveTasks
                              {| tasks := [Sample.t1; Sample.t2];
                                 lastUpdated := EmptyString |}
                              Sample.env (Sample.world [])))).
Proof.
  destruct (table_stays_well_formed Sample.env (Sample.world []) Sample.t1
              {| tasks := [Sample.t1; Sample.t2]; lastUpdated := EmptyString |}
              EmptyString) as [Hempty Hkeep].
  apply Hkeep. exact Hempty.
Defined.

Lemma rows_spec (w : World) (t : Task) :
  In t (rows w) <-> exists k, tasksTable w !! k = Some t.
Proof.
  unfold rows. rewrite <- list_elem_of_In, list_elem_of_fmap. split.
  - intros ([k t'] & -> & Hin). exists k. now apply elem_of_map_to_list.
  - intros (k & Hk). exists (k, t). split; [reflexivity|]. now apply elem_of_map_to_list.
Qed.

Lemma rows_ids (w : World) :
  tableOk (tasksTable w) -> List.map id (rows w) = (map_to_list (tasksTable w)).*1.
Proof.
  intros Hok. unfold rows.
  assert (Hall : Forall (fun e => id (snd e) = fst e) (map_to_list (tasksTable w))).
  { apply List.Forall_forall. intros [k t] Hin.
    apply list_elem_of_In, elem_of_map_to_list in Hin. now apply Hok in Hin as [Hid _]. }
  induction Hall as [|e l He Hl IH]; [reflexivity|].
  cbn. now rewrite He, <- IH.
Qed.

(** X3.  A load of the indexed backend returns, stamped with the current
    time, exactly the rows of the table, each once: as many tasks as
    there are rows and, the table being well formed, no id twice.  It
    changes nothing. *)
Theorem db_load_returns_every_row (env : Env) (w : World) :
  exists storage,
    StorageDb.loadTasks env w = (Return storage, w) /\
    lastUpdated storage = JS.toISOString (clock env) /\
    (forall t, In t (tasks storage) <-> exists k, tasksTable w !! k = Some t) /\
    length (tasks storage) = size (tasksTable w) /\
    (tableOk (tasksTable w) -> NoDup (List.map id (tasks storage))).
Proof.
  eexists. split; [reflexivity|]. cbn [tasks lastUpdated].
  split; [reflexivity|]. split; [apply rows_spec|]. split.
  - now rewrite length_fmap, length_map_to_list.
  - intros Hok. fold (rows w). rewrite (rows_ids w Hok). apply NoDup_fst_map_to_list.
Qed.

Lemma db_load_returns_every_row_witness :
  let w := snd (StorageDb.saveTasks
                  {| tasks := [Sample.t1; Sample.t2]; lastUpdated := EmptyString |}
                  Sample.env (Sample.world [])) in
  exists storage,
    StorageDb.loadTasks Sample.env w = (Return storage, w) /\
    NoDup (List.map id (tasks storage)).
Proof.
  intros w.
  destruct (db_load_returns_every_row Sample.env w) as (storage & Hl & _ & _ & _ & Hnd).
  exists storage. split; [exact Hl|]. apply Hnd.
  subst w. rewrite saveTasks_db_run. apply tableOk_upserted, tableOk_empty.
Defined.

Lemma map_to_list_upserted table l :
  NoDup (List.map id l) ->
  (forall task, In task l -> table !! id task = None) ->
  map_to_list (upserted table l) ≡ₚ
  (List.map (fun task => (id task, StorageDb.row task)) l ++ map_to_list table)%list.
Proof.
  induction l as [|x l IH] using rev_ind; intros Hnd Hfree; [reflexivity|].
  rewrite List.map_app in Hnd. cbn in Hnd. apply NoDup_app in Hnd as (Hl & Hdisj & _).
  rewrite upserted_snoc, map_to_list_insert.
  - rewrite IH; [|exact Hl|intros t Ht; apply Hfree, in_or_app; now left].
    rewrite List.map_app. cbn. rewrite <- app_assoc. cbn.
    now rewrite Permutation_middle.
  - rewrite upserted_other.
    + apply Hfree, in_or_app. right. now left.
    + intros t Ht He. apply (Hdisj (id t)).
      * apply list_elem_of_In, in_map, Ht.
      * rewrite He. apply list_elem_of_In. now left.
Qed.

(** X4.  Saved into an empty table, a collection whose ids are distinct comes
    back from a load as the rows of its tasks, in some order: each task
    with its empty optional fields turned to null, none missing and
    none twice. *)
Theorem db_save_then_load (env : Env) (w : World) (storage : TaskStorage) :
  tasksTable w = ∅ ->
  NoDup (List.map id (tasks storage)) ->
  let w1 := snd (StorageDb.saveTasks storage env w) in
  exists loaded,
    StorageDb.loadTasks env w1 = (Return loaded, w1) /\
    Permutation (tasks loaded) (List.map StorageDb.row (tasks storage)).
Proof.
  intros Hempty Hnd w1. eexists. split; [reflexivity|].
  cbn [tasks]. subst w1. rewrite saveTasks_db_run. cbn [tasksTable snd].
  rewrite map_to_list_upserted.
  - rewrite Hempty, map_to_list_empty, app_nil_r.
    rewrite <- list_fmap_compose. reflexivity.
  - exact Hnd.
  - intros task _. rewrite Hempty. apply lookup_empty.
Qed.

Lemma db_save_then_load_witness :
  exists loaded,
    fst (StorageDb.loadTasks Sample.env
           (snd (StorageDb.saveTasks
                   {| tasks := [Sample.t1; Sample.t2]; lastUpdated := EmptyString |}
                   Sample.env (Sample.world [])))) = Return loaded /\
    Permutation (tasks loaded) [StorageDb.row Sample.t1; StorageDb.row Sample.t2].
Proof.
  destruct (db_save_then_load Sample.env (Sample.world [])
              {| tasks := [Sample.t1; Sample.t2]; lastUpdated := EmptyString |})
    as (loaded & Hl & Hp).
  - reflexivity.
  - cbn. repeat constructor; rewrite ?list_elem_of_In; cbn; intuition discriminate.
  - exists loaded. split; [now rewrite Hl|exact Hp].
Defined.

Lemma upserted_known table l :
  (forall task, In task l -> table !! id task = Some task /\ StorageDb.row task = task) ->
  upserted table l = table.
Proof.
  induction l as [|x l IH]; intros Hknown; [reflexivity|].
  cbn. destruct (Hknown x (or_introl eq_refl)) as [Hx Hrow].
  rewrite Hrow, (insert_id _ _ _ Hx). apply IH. intros t Ht. apply Hknown. now right.
Qed.

(** X5.  On a well-formed table, saving any selection of the loaded tasks
    changes nothing: the whole loaded collection, and also the loaded
    collection with tasks taken out.  A task removed from the loaded
    collection is therefore still in the table after [saveTasks]; only
    [deleteTask] removes a row. *)
Theorem db_save_of_loaded_tasks_is_void (env : Env) (w : World)
    (loaded : TaskStorage) (w1 : World) (kept : list Task) :
  tableOk (tasksTable w) ->
  StorageDb.loadTasks env w = (Return loaded, w1) ->
  (forall task, In task kept -> In task (tasks loaded)) ->
  tasksTable
    (snd (StorageDb.saveTasks {| tasks := kept; lastUpdated := lastUpdated loaded |} env w1))
  = tasksTable w.
Proof.
  intros Hok [= <- <-] Hsub. rewrite saveTasks_db_run. cbn [tasksTable snd tasks].
  apply upserted_known. intros task Ht.
  apply Hsub in Ht. cbn [tasks] in Ht. fold (rows w) in Ht.
  apply rows_spec in Ht as (k & Hk). destruct (Hok k task Hk) as [<- Hrow]. now split.
Qed.

Lemma db_save_of_loaded_tasks_is_void_witness :
  let w := snd (StorageDb.saveTasks
                  {| tasks := [Sample.t1; Sample.t2]; lastUpdated := EmptyString |}
                  Sample.env (Sample.world [])) in
  tasksTable (snd (StorageDb.saveTasks {| tasks := []; lastUpdated := EmptyString |}
                     Sample.env w)) = tasksTable w /\
  size (tasksTable w) = 2%nat.
Proof.
  intros w. split; [|reflexivity].
  apply (db_save_of_loaded_tasks_is_void Sample.env w
           {| tasks := rows w; lastUpdated := JS.toISOString (clock Sample.env) |} w []).
  - subst w. rewrite saveTasks_db_run. apply tableOk_upserted, tableOk_empty.
  - reflexivity.
  - intros task [].
Defined.

Lemma upserted_same_ids table table' l k :
  In k (List.map id l) -> upserted table l !! k = upserted table' l !! k.
Proof.
  induction l as [|x l IH] using rev_ind; intros Hk; [contradiction|].
  rewrite !upserted_snoc.
  destruct (decide (id x = k)) as [<-|Hne].
  - now rewrite !lookup_insert_eq.
  - rewrite !lookup_insert_ne by assumption. apply IH.
    rewrite List.map_app in Hk. apply in_app_or in Hk as [Hk|[Hk|[]]]; [exact Hk|].
    cbn in Hk. congruence.
Qed.

(** X6.  Saving a collection a second time changes nothing, whatever the
    table held and also when ids repeat in the collection; and saving
    two collections one after the other is saving them appended. *)
Theorem db_save_twice (env : Env) (w : World) (storage other : TaskStorage) :
  let w1 := snd (StorageDb.saveTasks storage env w) in
  StorageDb.saveTasks storage env w1 = (Return tt, w1) /\
  snd (StorageDb.saveTasks other env w1) =
  snd (StorageDb.saveTasks
         {| tasks := tasks storage ++ tasks other; lastUpdated := lastUpdated other |}
         env w).
Proof.
  intros w1. subst w1. rewrite !saveTasks_db_run. cbn [snd tasksTable tasksFile console tasks].
  split.
  - f_equal. f_equal. apply map_eq. intros k.
    destruct (in_dec string_dec k (List.map id (tasks storage))) as [Hin|Hout].
    + now apply upserted_same_ids.
    + rewrite upserted_other; [reflexivity|].
      intros task Ht He. apply Hout. rewrite <- He. now apply in_map.
  - unfold upserted. now rewrite fold_left_app.
Qed.

(** X7.  [deleteTask] removes the row filed under exactly the given id, no
    prefix of it, and tells whether there was one; every other row stays
    as it is.  After [saveTask] of a task, deleting its id reports a
    removed row, and restores the table when the id was new. *)
Theorem db_delete_exact (env : Env) (w : World) (taskId : string) (task : Task) :
  let w1 := snd (StorageDb.deleteTask taskId env w) in
  (fst (StorageDb.deleteTask taskId env w) = Return true <->
   exists t, tasksTable w !! taskId = Some t) /\
  (fst (StorageDb.deleteTask taskId env w) = Return false <->
   tasksTable w !! taskId = None) /\
  tasksTable w1 !! taskId = None /\
  (forall k, k <> taskId -> tasksTable w1 !! k = tasksTable w !! k) /\
  fst (StorageDb.deleteTask (id task) env (snd (StorageDb.saveTask task env w))) =
    Return true /\
  (tasksTable w !! id task = None ->
   tasksTable (snd (StorageDb.deleteTask (id task) env
                      (snd (StorageDb.saveTask task env w)))) = tasksTable w).
Proof.
  intros w1. subst w1. cbn [fst snd StorageDb.deleteTask StorageDb.saveTask
    StorageDb.insertOrReplace tasksTable].
  split; [|split; [|split; [|split; [|split]]]].
  - destruct (tasksTable w !! taskId) as [t|] eqn:Hl.
    + rewrite bool_decide_eq_true_2 by eauto. split; eauto.
    + rewrite bool_decide_eq_false_2 by (intros [t Ht]; discriminate).
      split; [discriminate|]. intros [t Ht]. discriminate.
  - destruct (tasksTable w !! taskId) as [t|] eqn:Hl.
    + rewrite bool_decide_eq_true_2 by eauto. split; discriminate.
    + rewrite bool_decide_eq_false_2 by (intros [t Ht]; discriminate). now split.
  - apply lookup_delete_eq.
  - intros k Hk. now apply lookup_delete_ne.
  - rewrite lookup_insert_eq. rewrite bool_decide_eq_true_2 by eauto. reflexivity.
  - intros Hnew. rewrite delete_insert_eq. now apply delete_id.
Qed.

Lemma db_delete_exact_witness :
  let w := Sample.world [] in
  tasksTable (snd (StorageDb.deleteTask (id Sample.t1) Sample.env
                     (snd (StorageDb.saveTask Sample.t1 Sample.env w)))) = tasksTable w.
Proof.
  intros w.
  destruct (db_delete_exact Sample.env w EmptyString Sample.t1)
    as (_ & _ & _ & _ & _ & Hrestore).
  apply Hrestore. reflexivity.
Defined.

(** * Further properties of the router and the operations *)

(** ** The storage router *)

Lemma lowerChar_idempotent (c : ascii) : JS.lowerChar (JS.lowerChar c) = JS.lowerChar c.
Proof. destruct c as [[] [] [] [] [] [] [] []]; reflexivity. Qed.

Lemma toLowerCase_idempotent (s : string) :
  JS.toLowerCase (JS.toLowerCase s) = JS.toLowerCase s.
Proof.
  induction s as [|c s IH]; [reflexivity|].
  cbn. now rewrite lowerChar_idempotent, IH.
Qed.

Lemma toLowerCase_empty (s : string) : JS.toLowerCase s = EmptyString <-> s = EmptyString.
Proof. destruct s; cbn; split; congruence. Qed.

Lemma storageModule_iff (env : Env) :
  StorageRouter.storageModule env = StorageRouter.DatabaseStorage <->
  exists s, STORAGE_TYPE env = Some s /\
            (JS.toLowerCase s = "database" \/ JS.toLowerCase s = "db").
Proof.
  unfold StorageRouter.storageModule, StorageRouter.storageType, JS.orElse.
  destruct (STORAGE_TYPE env) as [s|].
  - destruct (String.eqb_spec s EmptyString) as [->|Hs].
    + cbn. split; [discriminate|]. intros (s & [= <-] & [H|H]); discriminate.
    + destruct (String.eqb_spec (JS.toLowerCase s) "database") as [Hd|Hd]; cbn.
      * split; [|reflexivity]. intros _. exists s. split; [reflexivity|now left].
      * destruct (String.eqb_spec (JS.toLowerCase s) "db") as [Hb|Hb]; cbn.
        -- split; [|reflexivity]. intros _. exists s. split; [reflexivity|now right].
        -- split; [discriminate|]. intros (s' & [= <-] & [H|H]); contradiction.
  - cbn. split; [discriminate|]. intros (s & Hs & _). discriminate.
Qed.

(** X8.  The router selects the indexed backend exactly when [STORAGE_TYPE]
    is set and reads, letter case aside, [database] or [db]; unset,
    empty or anything else selects the snapshot backend.  Two values
    that differ in letter case only select the same backend.  The calls
    the router exports are those of the selected backend, the
    single-row ones being there for the indexed backend only. *)
Theorem router_selects_backend (env : Env) :
  (StorageRouter.storageModule env = StorageRouter.DatabaseStorage <->
   exists s, STORAGE_TYPE env = Some s /\
             (JS.toLowerCase s = "database" \/ JS.toLowerCase s = "db")) /\
  (forall s s',
      JS.toLowerCase s = JS.toLowerCase s' ->
      StorageRouter.storageModule (withStorageType env (Some s)) =
      StorageRouter.storageModule (withStorageType env (Some s'))) /\
  match StorageRouter.storageModule env with
  | StorageRouter.FileStorage =>
      StorageRouter.loadTasks env = Storage.loadTasks env /\
      (forall storage, StorageRouter.saveTasks storage env = Storage.saveTasks storage env) /\
      StorageRouter.saveTask env = None /\ StorageRouter.deleteTask env = None
  | StorageRouter.DatabaseStorage =>
      StorageRouter.loadTasks env = StorageDb.loadTasks env /\
      (forall storage, StorageRouter.saveTasks storage env = StorageDb.saveTasks storage env) /\
      StorageRouter.saveTask env = Some StorageDb.saveTask /\
      StorageRouter.deleteTask env = Some StorageDb.deleteTask
  end.
Proof.
  split; [apply storageModule_iff|]. split.
  - intros s s' Hlow.
    unfold StorageRouter.storageModule, StorageRouter.storageType, JS.orElse. cbn.
    destruct (String.eqb_spec s EmptyString) as [->|Hs].
    + symmetry in Hlow. apply (proj1 (toLowerCase_empty s')) in Hlow. now subst s'.
    + destruct (String.eqb_spec s' EmptyString) as [->|Hs'].
      * apply (proj1 (toLowerCase_empty s)) in Hlow. contradiction.
      * now rewrite Hlow.
  - unfold StorageRouter.loadTasks, StorageRouter.saveTasks, StorageRouter.saveTask,
      StorageRouter.deleteTask.
    destruct (StorageRouter.storageModule env); repeat split.
Qed.

Lemma router_selects_backend_witness :
  StorageRouter.storageModule (withStorageType Sample.env (Some "DataBase")) =
  StorageRouter.storageModule (withStorageType Sample.env (Some "database")).
Proof.
  destruct (router_selects_backend Sample.env) as (_ & Hcase & _).
  apply Hcase. reflexivity.
Defined.

(** ** createTask *)

Lemma checkMin_1 (s message : string) : checkMin 1 s message = [] <-> s <> EmptyString.
Proof.
  unfold checkMin. destruct s; cbn; split; congruence.
Qed.

Lemma checkDate_ok (o : option string) :
  checkDate o = [] <-> forall d, o = Some d -> JS.matchesDate d = true.
Proof.
  unfold checkDate. destruct o as [d|].
  - destruct (JS.matchesDate d) eqn:Hd.
    + split; [|reflexivity]. intros _ d' [= <-]. exact Hd.
    + split; [discriminate|]. intros Hall. specialize (Hall d eq_refl). congruence.
  - split; [intros _ d; discriminate|reflexivity].
Qed.


Section Create.
Context `{Intl}.

Lemma createTask_run env w args :
  CreateTaskSchema.issues args = [] ->
  exists w1,
    tasksTable w1 = tasksTable w /\
    Tools.createTask args env w =
    (Return (textResult ("✅ Task created successfully!" +:+ nl +:+ nl +:+
                         formatTask (created args env))),
     written (stored w ++ [created args env]) env w1).
Proof.
  intros Hi.
  destruct (loadTasks_returns env w) as (st & w1 & Hl & Ht & _ & Htb).
  exists w1. split; [assumption|].
  unfold Tools.createTask, bind, CreateTaskSchema.parse. rewrite Hi. cbn.
  rewrite Hl. cbn. rewrite Ht. reflexivity.
Qed.
End Create.



(** ** Lookup, update, delete and complete *)

Lemma prefix_refl (s : string) : String.prefix s s = true.
Proof. induction s as [|c s IH]; [reflexivity|]. cbn. now destruct (ascii_dec c c). Qed.

Lemma findIndex_app {A} (p : A -> bool) (l1 l2 : list A) (x : A) :
  (forall y, In y l1 -> p y = false) -> p x = true ->
  JS.findIndex p (l1 ++ x :: l2)%list = Some (length l1).
Proof.
  intros Hl1 Hx. induction l1 as [|y l1 IH]; cbn.
  - now rewrite Hx.
  - rewrite (Hl1 y (or_introl eq_refl)), IH; [reflexivity|].
    intros z Hz. apply Hl1. now right.
Qed.

Lemma removeAt_app {A} (l1 l2 : list A) (x : A) :
  JS.removeAt (length l1) (l1 ++ x :: l2)%list = (l1 ++ l2)%list.
Proof. induction l1 as [|y l1 IH]; cbn; [reflexivity|now rewrite IH]. Qed.

Lemma lookup_middle {A} (l1 l2 : list A) (x : A) :
  (l1 ++ x :: l2)%list !! length l1 = Some x.
Proof. induction l1 as [|y l1 IH]; [reflexivity|exact IH]. Qed.

Lemma taskId_issues (taskId : string) :
  (8 <= String.length taskId)%nat ->
  TaskIdSchema.issues {| TaskIdSchema.taskId := taskId |} = [].
Proof. intros Hlen. unfold TaskIdSchema.issues. cbn. now apply checkMin_long. Qed.

(** X10.  A task whose id starts with the given prefix, standing behind tasks
    whose ids do not, is the one [deleteTask] removes: the tasks before
    and after it stay, in their order; the text names its title.  Tasks
    behind it are not looked at, whether their ids start with the prefix
    or not. *)
Theorem deleteTask_removes_exactly_one (env : Env) (w : World) (taskId : string)
    (l1 l2 : list Task) (task : Task) :
  (8 <= String.length taskId)%nat ->
  stored w = (l1 ++ task :: l2)%list ->
  (forall t, In t l1 -> JS.startsWith (id t) taskId = false) ->
  JS.startsWith (id task) taskId = true ->
  fst (Tools.deleteTask {| TaskIdSchema.taskId := taskId |} env w) =
    Return (textResult ("🗑️ Task " +:+ quote +:+ title task +:+ quote +:+
                        " deleted successfully.")) /\
  tasksFile (snd (Tools.deleteTask {| TaskIdSchema.taskId := taskId |} env w)) =
    Json {| tasks := (l1 ++ l2)%list; lastUpdated := JS.toISOString (clock env) |}.
Proof.
  intros Hlen Hst Hl1 Htask.
  destruct (deleteTask_found env w {| TaskIdSchema.taskId := taskId |} (length l1) task)
    as (w1 & _ & ->).
  - now apply taskId_issues.
  - rewrite Hst. now apply findIndex_app.
  - rewrite Hst. apply lookup_middle.
  - rewrite Hst, removeAt_app. now split.
Qed.

Lemma deleteTask_removes_exactly_one_witness :
  stored (snd (Tools.deleteTask {| TaskIdSchema.taskId := "7f3e9a10" |} Sample.env
                 (Sample.world [Sample.t1; Sample.t2; Sample.t3]))) =
  [Sample.t1; Sample.t3].
Proof.
  destruct (deleteTask_removes_exactly_one Sample.env
              (Sample.world [Sample.t1; Sample.t2; Sample.t3]) "7f3e9a10"
              [Sample.t1] [Sample.t3] Sample.t2) as [_ Hfile].
  - cbn. lia.
  - reflexivity.
  - intros t [<-|[]]. reflexivity.
  - reflexivity.
  - unfold stored. now rewrite Hfile.
Defined.

(** X11.  Creating a task and then deleting by its full id gives back the
    collection as it was, provided the generated id is fresh: at least
    eight characters long and no prefix of an id already stored. *)
Theorem create_then_delete `{Intl} (env : Env) (w : World)
    (args : CreateTaskSchema.input) :
  CreateTaskSchema.issues args = [] ->
  (8 <= String.length (uuid env))%nat ->
  (forall t, In t (stored w) -> JS.startsWith (id t) (uuid env) = false) ->
  let w1 := snd (Tools.createTask args env w) in
  stored (snd (Tools.deleteTask {| TaskIdSchema.taskId := uuid env |} env w1)) = stored w.
Proof.
  intros Hi Hlen Hfresh w1. subst w1.
  destruct (createTask_run env w args Hi) as (w1 & _ & ->). cbn [snd].
  destruct (deleteTask_found env (written (stored w ++ [created args env])%list env w1)
              {| TaskIdSchema.taskId := uuid env |} (length (stored w)) (created args env))
    as (w2 & _ & ->).
  - now apply taskId_issues.
  - rewrite stored_written. apply findIndex_app; [exact Hfresh|].
    unfold Tools.matchesId, JS.startsWith. cbn. apply prefix_refl.
  - rewrite stored_written. apply lookup_middle.
  - cbn [snd]. rewrite !stored_written, removeAt_app. apply app_nil_r.
Qed.

Lemma create_then_delete_witness :
  let args :=
    {| CreateTaskSchema.title := "Write report"; CreateTaskSchema.description := None;
       CreateTaskSchema.priority := None; CreateTaskSchema.category := None;
       CreateTaskSchema.dueDate := None |} in
  let w := Sample.world [Sample.t1; Sample.t2] in
  stored (snd (Tools.deleteTask {| TaskIdSchema.taskId := uuid Sample.env |} Sample.env
                 (snd (Tools.createTask args Sample.env w)))) = [Sample.t1; Sample.t2].
Proof.
  intros args w.
  apply (create_then_delete Sample.env w args).
  - reflexivity.
  - cbn. lia.
  - intros t [<-|[<-|[]]]; reflexivity.
Defined.

Lemma applyUpdate_fields args now task :
  id (Tools.applyUpdate args now task) = id task /\
  createdAt (Tools.applyUpdate args now task) = createdAt task /\
  title (Tools.applyUpdate args now task) =
    match UpdateTaskSchema.title args with Some v => v | None => title task end /\
  description (Tools.applyUpdate args now task) =
    match UpdateTaskSchema.description args with
    | Some v => Some v
    | None => description task
    end /\
  priority (Tools.applyUpdate args now task) =
    match UpdateTaskSchema.priority args with Some v => v | None => priority task end /\
  category (Tools.applyUpdate args now task) =
    match UpdateTaskSchema.category args with
    | Some v => Some v
    | None => category task
    end /\
  dueDate (Tools.applyUpdate args now task) =
    match UpdateTaskSchema.dueDate args with
    | Some v => Some v
    | None => dueDate task
    end.
Proof.
  unfold Tools.applyUpdate, Tools.assign.
  destruct args as [tid [?|] [?|] [?|] [?|] [?|] [[]|]]; cbn;
    try destruct (JS.truthy (completedAt task)); now repeat split.
Qed.

(** X12.  An update that resolves a task replaces that task and nothing else:
    the collection keeps its length and every other task.  In the task,
    [id] and [createdAt] never change, and each of title, description,
    priority, category and due date is the request's value when the
    request has one and the old value otherwise (so no field can be
    emptied by leaving it out). *)
Theorem updateTask_changes_only_what_is_given `{Intl} (env : Env) (w : World)
    (args : UpdateTaskSchema.input) (i : nat) (task : Task) :
  UpdateTaskSchema.issues args = [] ->
  JS.findIndex (Tools.matchesId (UpdateTaskSchema.taskId args)) (stored w) = Some i ->
  stored w !! i = Some task ->
  let after := stored (snd (Tools.updateTask args env w)) in
  exists task',
    after !! i = Some task' /\
    length after = length (stored w) /\
    (forall j, j <> i -> after !! j = stored w !! j) /\
    id task' = id task /\ createdAt task' = createdAt task /\
    title task' = match UpdateTaskSchema.title args with
                  | Some v => v
                  | None => title task
                  end /\
    description task' = match UpdateTaskSchema.description args with
                        | Some v => Some v
                        | None => description task
                        end /\
    priority task' = match UpdateTaskSchema.priority args with
                     | Some v => v
                     | None => priority task
                     end /\
    category task' = match UpdateTaskSchema.category args with
                     | Some v => Some v
                     | None => category task
                     end /\
    dueDate task' = match UpdateTaskSchema.dueDate args with
                    | Some v => Some v
                    | None => dueDate task
                    end.
Proof.
  intros Hi Hfind Hlook after. subst after.
  destruct (updateTask_found env w args i task Hi Hfind Hlook) as (w1 & _ & ->).
  cbn [snd]. rewrite stored_written.
  exists (Tools.applyUpdate args (JS.toISOString (clock env)) task).
  split; [|split; [|split]].
  - apply list_lookup_insert_eq. now apply lookup_lt_Some in Hlook.
  - apply length_insert.
  - intros j Hj. apply list_lookup_insert_ne. congruence.
  - apply applyUpdate_fields.
Qed.

Lemma updateTask_changes_only_what_is_given_witness :
  exists task',
    stored (snd (Tools.updateTask (Sample.update "0a1b2c3d" None) Sample.env
                   (Sample.world [Sample.t1; Sample.t2]))) !! 0%nat = Some task' /\
    title task' = "Review all PRs" /\ dueDate task' = Some "2025-02-30" /\
    priority task' = low /\ id task' = "0a1b2c3d-0000".
Proof.
  destruct (updateTask_changes_only_what_is_given Sample.env
              (Sample.world [Sample.t1; Sample.t2]) (Sample.update "0a1b2c3d" None)
              0 Sample.t1)
    as (task' & Hat & _ & _ & Hid & _ & Htitle & _ & Hprio & _ & Hdue).
  - reflexivity.
  - reflexivity.
  - reflexivity.
  - exists task'. now repeat split.
Defined.

(** X13.  On a task that carries a completion stamp, an update to status
    [completed] keeps the stamp it finds, while [completeTask] always
    writes the current time over it; both leave the status
    [completed]. *)
Theorem complete_restamps_update_keeps `{Intl} (env : Env) (w : World)
    (uargs : UpdateTaskSchema.input) (i : nat) (task : Task) :
  UpdateTaskSchema.issues uargs = [] ->
  UpdateTaskSchema.status uargs = Some completed ->
  JS.findIndex (Tools.matchesId (UpdateTaskSchema.taskId uargs)) (stored w) = Some i ->
  stored w !! i = Some task ->
  present (completedAt task) ->
  let args := {| TaskIdSchema.taskId := UpdateTaskSchema.taskId uargs |} in
  exists updated done,
    stored (snd (Tools.updateTask uargs env w)) !! i = Some updated /\
    stored (snd (Tools.completeTask args env w)) !! i = Some done /\
    status updated = completed /\ completedAt updated = completedAt task /\
    status done = completed /\ completedAt done = Some (JS.toISOString (clock env)).
Proof.
  intros Hi Hst Hfind Hlook Hpres args.
  assert (Ha : TaskIdSchema.issues args = []).
  { unfold UpdateTaskSchema.issues in Hi. now apply app_eq_nil in Hi as [Hmin _]. }
  destruct (updateTask_found env w uargs i task Hi Hfind Hlook) as (w1 & _ & ->).
  destruct (completeTask_found env w args i task Ha Hfind Hlook) as (w2 & _ & ->).
  cbn [snd]. rewrite !stored_written.
  apply lookup_lt_Some in Hlook.
  eexists _, _. split; [now apply list_lookup_insert_eq|].
  split; [now apply list_lookup_insert_eq|].
  rewrite applyUpdate_status, applyUpdate_completedAt, Hst.
  unfold present in Hpres. rewrite Hpres. now repeat split.
Qed.

Lemma complete_restamps_update_keeps_witness :
  exists updated done,
    stored (snd (Tools.updateTask (Sample.update "7f3e9a10" (Some completed)) Sample.env
                   (Sample.world [Sample.t3]))) !! 0%nat = Some updated /\
    stored (snd (Tools.completeTask {| TaskIdSchema.taskId := "7f3e9a10" |} Sample.env
                   (Sample.world [Sample.t3]))) !! 0%nat = Some done /\
    completedAt updated = Some "2025-01-02T10:00:00.000Z" /\
    completedAt done = Some "2026-11-02T07:45:10.123Z".
Proof.
  destruct (complete_restamps_update_keeps Sample.env (Sample.world [Sample.t3])
              (Sample.update "7f3e9a10" (Some completed)) 0 Sample.t3)
    as (updated & done & Hu & Hd & _ & Hku & _ & Hkd); try reflexivity.
  exists updated, done. repeat split; assumption.
Defined.

(** ** clearCompleted *)

Lemma filter_idempotent {A} (p : A -> bool) (l : list A) :
  List.filter p (List.filter p l) = List.filter p l.
Proof.
  induction l as [|x l IH]; [reflexivity|].
  cbn. destruct (p x) eqn:Hx; [|exact IH]. cbn. now rewrite Hx, IH.
Qed.

(** X14.  Clearing a second time finds nothing to clear: it answers with the
    nothing-to-clear text and stores the same tasks again. *)
Theorem clearCompleted_twice `{Intl} (env : Env) (w : World) :
  let w1 := snd (Tools.clearCompleted env w) in
  fst (Tools.clearCompleted env w1) = Return (textResult "No completed tasks to clear.") /\
  stored (snd (Tools.clearCompleted env w1)) = stored w1.
Proof.
  intros w1. subst w1.
  destruct (clearCompleted_run env w) as (w1 & _ & _ & ->). cbn [snd].
  destruct (clearCompleted_run env
              (written (List.filter (fun t => negb (Tools.hasStatus completed t)) (stored w))
                 env w1)) as (w2 & _ & _ & ->).
  cbn [fst snd]. rewrite !stored_written, filter_idempotent, Nat.sub_diag.
  now split.
Qed.

(** ** The ids of the stored tasks *)

Lemma map_id_insert (l : list Task) (i : nat) (old new : Task) :
  l !! i = Some old -> id new = id old ->
  List.map id (<[i := new]> l) = List.map id l.
Proof.
  revert i. induction l as [|x l IH]; intros [|i]; cbn; try discriminate.
  - intros [= ->] ->. reflexivity.
  - intros Hl Hid. f_equal. now apply IH.
Qed.

Lemma removeAt_sublist {A} (i : nat) (l : list A) : sublist (JS.removeAt i l) l.
Proof.
  revert i. induction l as [|x l IH]; intros [|i]; cbn.
  - constructor.
  - constructor.
  - now constructor.
  - constructor. apply IH.
Qed.

(** X15.  If no two stored tasks share an id and the id the generator hands
    out is not among them, then after any call of a tool no two stored
    tasks share an id: create adds the new id, update and complete
    keep every id in its place, delete and clear only take ids away. *)
Theorem ids_stay_distinct `{Intl} (request : Server.CallToolRequest) (env : Env)
    (w : World) :
  NoDup (List.map id (stored w)) ->
  ~ In (uuid env) (List.map id (stored w)) ->
  NoDup (List.map id (stored (snd (Server.callTool request env w)))).
Proof.
  intros Hnd Hfresh. rewrite callTool_world.
  destruct request as [args|args|args|args|args|args| | |name]; cbn [Server.dispatch].
  - destruct (createTask_effect env w args) as [[_ ->]|[_ (task & -> & _ & _ & _ & Hid & _)]];
      [exact Hnd|].
    rewrite List.map_app. cbn. apply NoDup_app. split; [exact Hnd|]. split.
    + intros k Hk Hin. apply list_elem_of_In in Hin as [Hk'|[]].
      apply Hfresh. rewrite <- Hid, Hk'. now apply list_elem_of_In.
    + repeat constructor. intros Hin. inversion Hin.
  - destruct (listTasks_effect env w args) as [Hf _]. unfold stored. now rewrite Hf.
  - destruct (updateTask_effect env w args) as [->|(i & task & Hlook & ->)]; [exact Hnd|].
    rewrite (map_id_insert _ _ task); [exact Hnd|exact Hlook|].
    apply applyUpdate_fields.
  - destruct (deleteTask_effect env w args) as [->|(i & ->)]; [exact Hnd|].
    eapply sublist_NoDup; [exact Hnd|]. apply (fmap_sublist id), removeAt_sublist.
  - destruct (completeTask_effect env w args) as [->|(i & task & Hlook & ->)]; [exact Hnd|].
    now rewrite (map_id_insert _ _ task).
  - destruct (searchTasks_effect env w args) as [Hf _]. unfold stored. now rewrite Hf.
  - destruct (getTaskStats_run env w) as (w1 & Hf & _ & ->).
    unfold stored. cbn [snd]. now rewrite Hf.
  - destruct (clearCompleted_run env w) as (w1 & _ & _ & ->).
    cbn [snd]. rewrite stored_written.
    eapply sublist_NoDup; [exact Hnd|]. apply (fmap_sublist id), filter_sublist.
  - exact Hnd.
Qed.

Lemma ids_stay_distinct_witness :
  NoDup (List.map id
           (stored (snd (Server.callTool
                           (Server.complete_task {| TaskIdSchema.taskId := "7f3e9a10" |})
                           Sample.env (Sample.world [Sample.t1; Sample.t2; Sample.t3]))))).
Proof.
  apply (ids_stay_distinct
           (Server.complete_task {| TaskIdSchema.taskId := "7f3e9a10" |})
           Sample.env (Sample.world [Sample.t1; Sample.t2; Sample.t3])).
  - cbn. repeat constructor; rewrite ?list_elem_of_In; cbn; intuition discriminate.
  - cbn. intuition discriminate.
Defined.

(** ** The operations that only read *)

Lemma loadTasks_world env w :
  snd (Storage.loadTasks env w) =
  match tasksFile w with
  | Unreadable error => logged ("Error loading tasks: " +:+ error) w
  | _ => w
  end.
Proof.
  destruct (tasksFile w) as [|error|data] eqn:Hf.
  - now rewrite (loadTasks_Absent env w Hf).
  - now rewrite (loadTasks_Unreadable env w error Hf).
  - now rewrite (loadTasks_Json env w data Hf).
Qed.

Section Reading.
Context `{Intl}.

Lemma listTasks_world env w args :
  snd (Tools.listTasks args env w) = snd (Storage.loadTasks env w).
Proof.
  unfold Tools.listTasks, bind, ListTasksSchema.parse. cbn.
  destruct (Storage.loadTasks env w) as [[st|e] w1]; [|reflexivity].
  cbn. now destruct (length _ =? 0)%nat.
Qed.

Lemma searchTasks_world env w args :
  SearchSchema.query args <> EmptyString ->
  snd (Tools.searchTasks args env w) = snd (Storage.loadTasks env w).
Proof.
  intros Hq. unfold Tools.searchTasks, bind, SearchSchema.parse, SearchSchema.issues.
  rewrite (proj2 (checkMin_1 _ _) Hq). cbn.
  destruct (Storage.loadTasks env w) as [[st|e] w1]; [|reflexivity].
  cbn. now destruct (length _ =? 0)%nat.
Qed.

Lemma getTaskStats_world env w :
  snd (Tools.getTaskStats env w) = snd (Storage.loadTasks env w).
Proof.
  unfold Tools.getTaskStats, bind.
  destruct (Storage.loadTasks env w) as [[st|e] w1]; [|reflexivity].
  cbn. now destruct (length _ =? 0)%nat.
Qed.
End Reading.

(** X16.  Listing, searching and the statistics leave the world as a load
    leaves it: nothing is written, neither to the document nor to the
    table.  With a missing or readable document the world is exactly as
    before; with an unreadable one the only trace is the line the load
    writes to the console. *)
Theorem reading_operations_write_nothing `{Intl} (env : Env) (w : World)
    (largs : option ListTasksSchema.input) (sargs : SearchSchema.input) :
  let afterLoad :=
    match tasksFile w with
    | Unreadable error => logged ("Error loading tasks: " +:+ error) w
    | _ => w
    end in
  snd (Tools.listTasks largs env w) = afterLoad /\
  snd (Tools.getTaskStats env w) = afterLoad /\
  (SearchSchema.query sargs <> EmptyString ->
   snd (Tools.searchTasks sargs env w) = afterLoad) /\
  (SearchSchema.query sargs = EmptyString ->
   Tools.searchTasks sargs env w = (Throw (ZodError ["Search query is required"]), w)).
Proof.
  intros afterLoad. subst afterLoad. rewrite <- (loadTasks_world env w).
  split; [apply listTasks_world|]. split; [apply getTaskStats_world|]. split.
  - apply searchTasks_world.
  - intros Hq. unfold Tools.searchTasks, bind, SearchSchema.parse, SearchSchema.issues.
    now rewrite Hq.
Qed.

Lemma reading_operations_write_nothing_witness :
  let w := Sample.world [Sample.t1; Sample.t2] in
  snd (Tools.searchTasks {| SearchSchema.query := "review" |} Sample.env w) = w.
Proof.
  intros w.
  destruct (reading_operations_write_nothing Sample.env w None
              {| SearchSchema.query := "review" |}) as (_ & _ & Hsearch & _).
  apply Hsearch. discriminate.
Defined.

(** ** The filters of a listing *)

Lemma hasStatus_iff (s : Status) (t : Task) : Tools.hasStatus s t = true <-> status t = s.
Proof. apply Status_eqb_eq. Qed.

Lemma hasPriority_iff (p : Priority) (t : Task) :
  Tools.hasPriority p t = true <-> priority t = p.
Proof. apply Priority_eqb_eq. Qed.

(** X17.  The filters keep a task exactly when it passes each filter that is
    set: its status is the wanted one, its priority is the wanted one,
    and it has a category whose lower-case form, as the runtime's case
    conversion gives it, is that of the wanted one.  A filter left out,
    the value [all], and an empty category filter let every task pass.
    The tasks kept stay in their order. *)
Theorem applyFilters_keeps_matching `{Intl} (validated : ListTasksSchema.output)
    (l : list Task) :
  sublist (Tools.applyFilters validated l) l /\
  forall t,
    In t (Tools.applyFilters validated l) <->
    In t l /\
    match ListTasksSchema.status' validated with
    | All => True
    | Only s => status t = s
    end /\
    match ListTasksSchema.priority' validated with
    | All => True
    | Only p => priority t = p
    end /\
    match ListTasksSchema.category' validated with
    | Some wanted =>
        wanted = EmptyString \/
        exists c, category t = Some c /\ toLowerCase c = toLowerCase wanted
    | None => True
    end.
Proof.
  unfold Tools.applyFilters.
  destruct validated as [st pr ca]; cbn [ListTasksSchema.status' ListTasksSchema.priority'
    ListTasksSchema.category'].
  assert (Hcat : forall wanted t,
             Tools.sameCategory wanted t = true <->
             exists c, category t = Some c /\ toLowerCase c = toLowerCase wanted).
  { intros wanted t. unfold Tools.sameCategory. destruct (category t) as [c|].
    - rewrite String.eqb_eq. split; [intros He; now exists c|].
      intros (c' & [= <-] & He). exact He.
    - split; [discriminate|]. intros (c & Hc & _). discriminate. }
  split.
  - destruct ca as [wanted|]; cbn; [destruct (String.eqb wanted EmptyString); cbn|];
      destruct st, pr;
      repeat (etransitivity; [apply filter_sublist|]); reflexivity.
  - intros t.
    destruct ca as [wanted|]; cbn.
    + destruct (String.eqb_spec wanted EmptyString) as [->|Hw]; cbn;
        destruct st as [s|], pr as [p|];
        rewrite ?List.filter_In, ?Hcat, ?hasStatus_iff, ?hasPriority_iff; intuition.
    + destruct st as [s|], pr as [p|];
        rewrite ?List.filter_In, ?hasStatus_iff, ?hasPriority_iff; intuition.
Qed.

(** ** Searching *)

Lemma prefix_iff (q s : string) : String.prefix q s = true <-> exists b, s = q +:+ b.
Proof.
  revert s. induction q as [|c q IH]; intros s.
  - split; [intros _; now exists s|intros _; now destruct s].
  - destruct s as [|d s]; cbn.
    + split; [discriminate|]. intros (b & Hb). discriminate.
    + destruct (ascii_dec c d) as [->|Hne].
      * rewrite IH. split; intros (b & Hb); exists b.
        -- now rewrite Hb.
        -- change (String d q +:+ b) with (String d (q +:+ b)) in Hb. congruence.
      * split; [discriminate|]. intros (b & Hb).
        change (String c q +:+ b) with (String c (q +:+ b)) in Hb. congruence.
Qed.

Lemma includes_nil (q : string) :
  JS.includes EmptyString q = String.prefix q EmptyString || false.
Proof. reflexivity. Qed.

Lemma includes_cons (c : ascii) (s q : string) :
  JS.includes (String c s) q = String.prefix q (String c s) || JS.includes s q.
Proof. reflexivity. Qed.

Lemma includes_iff (s q : string) : JS.includes s q = true <-> isSubstring q s.
Proof.
  unfold isSubstring. induction s as [|c s IH].
  - rewrite includes_nil, orb_false_r, prefix_iff. split.
    + intros (b & Hb). now exists EmptyString, b.
    + intros ([|x a] & b & Hab); [now exists b|discriminate].
  - rewrite includes_cons, orb_true_iff, IH, prefix_iff. split.
    + intros [(b & Hb)|(a & b & Hab)].
      * now exists EmptyString, b.
      * exists (String c a), b. now rewrite Hab.
    + intros ([|x a] & b & Hab).
      * left. now exists b.
      * right. exists a, b.
        change (String x a +:+ q +:+ b) with (String x (a +:+ q +:+ b)) in Hab.
        congruence.
Qed.

Section Search.
Context `{Intl}.

Lemma searchTasks_run env w args :
  SearchSchema.query args <> EmptyString ->
  let found :=
    List.filter (Tools.matchesQuery (toLowerCase (SearchSchema.query args))) (stored w) in
  fst (Tools.searchTasks args env w) =
  Return (textResult
            (if (length found =? 0)%nat
             then "No tasks found matching " +:+ quote +:+ SearchSchema.query args +:+
                  quote +:+ "."
             else "🔍 Found " +:+ JS.showNat (length found) +:+ " task(s) matching " +:+
                  quote +:+ SearchSchema.query args +:+ quote +:+ ":" +:+ nl +:+ nl +:+
                  Tools.formatAll found)).
Proof.
  intros Hq found. subst found.
  destruct (loadTasks_returns env w) as (st & w1 & Hl & Ht & _).
  unfold Tools.searchTasks, bind, SearchSchema.parse, SearchSchema.issues.
  rewrite (proj2 (checkMin_1 _ _) Hq). cbn. rewrite Hl, Ht.
  now destruct (length _ =? 0)%nat.
Qed.
End Search.

(** X18.  A search with a non-empty query finds, in their order, exactly the
    stored tasks whose title contains the query, or that have a
    non-empty description containing it, both sides taken in lower
    case by the runtime's case conversion.  The answer echoes the query
    as it was typed: a text of its own when nothing is found, else the
    count and the tasks found. *)
Theorem searchTasks_finds_substrings `{Intl} (env : Env) (w : World)
    (args : SearchSchema.input) :
  SearchSchema.query args <> EmptyString ->
  let query := toLowerCase (SearchSchema.query args) in
  let found := List.filter (Tools.matchesQuery query) (stored w) in
  sublist found (stored w) /\
  (forall t,
      In t found <->
      In t (stored w) /\
      (isSubstring query (toLowerCase (title t)) \/
       exists d, description t = Some d /\ d <> EmptyString /\
                 isSubstring query (toLowerCase d))) /\
  fst (Tools.searchTasks args env w) =
  Return (textResult
            (if (length found =? 0)%nat
             then "No tasks found matching " +:+ quote +:+ SearchSchema.query args +:+
                  quote +:+ "."
             else "🔍 Found " +:+ JS.showNat (length found) +:+ " task(s) matching " +:+
                  quote +:+ SearchSchema.query args +:+ quote +:+ ":" +:+ nl +:+ nl +:+
                  Tools.formatAll found)).
Proof.
  intros Hq query found.
  split; [apply filter_sublist|]. split; [|now apply searchTasks_run].
  intros t. subst found. rewrite List.filter_In. unfold Tools.matchesQuery.
  rewrite orb_true_iff, andb_true_iff, !includes_iff.
  destruct (description t) as [d|].
  - assert (Hor : JS.orElse (Some d) EmptyString = d).
    { cbn. now destruct (String.eqb_spec d EmptyString). }
    rewrite Hor, truthy_Some.
    assert (Hd : d <> EmptyString /\ isSubstring query (toLowerCase d) <->
                 exists d0, Some d = Some d0 /\ d0 <> EmptyString /\
                            isSubstring query (toLowerCase d0)).
    { split; [intros [Hne Hsub]; now exists d|].
      intros (d0 & [= <-] & Hne & Hsub). now split. }
    split; intros [Hin [Ht|Hx]]; (split; [exact Hin|]);
      [now left|right; apply Hd; exact Hx|now left|right; apply Hd; exact Hx].
  - cbn [JS.orElse].
    assert (Hd : JS.truthy None = true /\ isSubstring query (toLowerCase EmptyString) <->
                 exists d0, @None string = Some d0 /\ d0 <> EmptyString /\
                            isSubstring query (toLowerCase d0)).
    { split; [intros [Hf _]; discriminate|]. intros (d0 & Hd0 & _). discriminate. }
    split; intros [Hin [Ht|Hx]]; (split; [exact Hin|]);
      [now left|right; apply Hd; exact Hx|now left|right; apply Hd; exact Hx].
Qed.

Lemma searchTasks_finds_substrings_witness :
  let done := Sample.task "9c" low None pending None in
  let other :=
    {| id := "11"; title := "Deploy"; description := Some "needs Review";
       priority := low; category := None; dueDate := None; status := pending;
       createdAt := "2025-01-01T09:00:00.000Z"; completedAt := None |} in
  let quiet :=
    {| id := "12"; title := "Deploy"; description := None;
       priority := low; category := None; dueDate := None; status := pending;
       createdAt := "2025-01-01T09:00:00.000Z"; completedAt := None |} in
  List.filter (Tools.matchesQuery "review") [done; other; quiet] = [done; other] /\
  In other (List.filter (Tools.matchesQuery "review") [done; other; quiet]).
Proof.
  intros done other quiet. split; [reflexivity|].
  destruct (searchTasks_finds_substrings Sample.env (Sample.world [done; other; quiet])
              {| SearchSchema.query := "REVIEW" |}) as (_ & Hin & _).
  - discriminate.
  - apply Hin. split; [right; now left|]. right.
    exists "needs Review". split; [reflexivity|]. split; [discriminate|].
    exists "needs ", EmptyString. reflexivity.
Defined.

(** ** More on the statistics *)

Lemma count_disjoint (p q r : Task -> bool) (l : list Task) :
  (forall t, p t = true -> q t = false) ->
  (forall t, p t = true -> r t = true) ->
  (forall t, q t = true -> r t = true) ->
  (Tools.count p l + Tools.count q l <= Tools.count r l)%nat.
Proof.
  intros Hpq Hpr Hqr. unfold Tools.count. induction l as [|t l IH]; [reflexivity|].
  cbn. destruct (p t) eqn:Hp, (q t) eqn:Hq.
  - rewrite (Hpq t Hp) in Hq. discriminate.
  - rewrite (Hpr t Hp). cbn. lia.
  - rewrite (Hqr t Hq). cbn. lia.
  - destruct (r t); cbn; lia.
Qed.

(** X20.  No task is both overdue and due soon, and neither kind includes a
    completed task or a task without a due date: the two counts
    together are at most the number of tasks that are not completed.
    This holds whatever the second reading of the clock gives. *)
Theorem overdue_and_dueSoon_are_disjoint (now later : Z) (l : list Task) :
  (forall t, Tools.isOverdue now t = true -> Tools.isDueSoon now later t = false) /\
  (forall t,
      Tools.isOverdue now t = true \/ Tools.isDueSoon now later t = true ->
      status t <> completed /\ present (dueDate t)) /\
  (Tools.overdue now l + Tools.dueSoon now later l <= Tools.count notCompleted l)%nat /\
  (Tools.overdue now l + Tools.dueSoon now later l +
   Tools.count (Tools.hasStatus completed) l
   <= length l)%nat.
Proof.
  assert (Hdis : forall t,
             Tools.isOverdue now t = true -> Tools.isDueSoon now later t = false).
  { intros t. unfold Tools.isOverdue, Tools.isDueSoon.
    destruct (dueDate t) as [d|]; [|now rewrite !andb_false_r].
    rewrite !andb_true_iff. intros [_ Hlt]. unfold JS.lt, JS.ge in *.
    destruct (String.leb (Tools.today now) d) eqn:Hge; [|now rewrite !andb_false_r].
    apply string_leb_not_ltb in Hge. congruence. }
  assert (Hnc : forall t,
             Tools.isOverdue now t = true \/ Tools.isDueSoon now later t = true ->
             notCompleted t = true /\ JS.truthy (dueDate t) = true).
  { intros t. unfold Tools.isOverdue, Tools.isDueSoon, notCompleted.
    rewrite !andb_true_iff. tauto. }
  assert (Hsum : (Tools.overdue now l + Tools.dueSoon now later l
                  <= Tools.count notCompleted l)%nat).
  { apply count_disjoint; [exact Hdis| |]; intros t Ht; apply Hnc; tauto. }
  split; [exact Hdis|]. split; [|split; [exact Hsum|]].
  - intros t Ht. destruct (Hnc t Ht) as [Hn Hd]. split; [|exact Hd].
    now apply notCompleted_iff.
  - rewrite (count_split (Tools.hasStatus completed) l). fold notCompleted.
    unfold notCompleted in *. lia.
Qed.

Lemma overdue_and_dueSoon_are_disjoint_witness :
  Tools.isDueSoon (clock Sample.env) (later Sample.env) Sample.t1 = false /\
  Tools.isOverdue (clock Sample.env) Sample.t1 = true.
Proof.
  destruct (overdue_and_dueSoon_are_disjoint (clock Sample.env) (later Sample.env)
              [Sample.t1]) as [Hdis _].
  split; [apply Hdis|]; reflexivity.
Defined.

Lemma list_sum_mapSet k v m :
  (list_sum (List.map snd (Tools.mapSet k v m)) + getCount k m =
   list_sum (List.map snd m) + v)%nat.
Proof.
  induction m as [|[k0 v0] m IH]; [cbn; lia|].
  assert (Hget : getCount k ((k0, v0) :: m) = if String.eqb k0 k then v0 else getCount k m).
  { unfold getCount, Tools.mapGet. cbn. now destruct (String.eqb k0 k). }
  rewrite Hget. cbn [Tools.mapSet fst].
  destruct (String.eqb k0 k); unfold list_sum in *; cbn in *; lia.
Qed.

Lemma list_sum_countCategory m t :
  list_sum (List.map snd (Tools.countCategory m t)) =
  (list_sum (List.map snd m) + if hasCategory t then 1 else 0)%nat.
Proof.
  unfold Tools.countCategory, hasCategory.
  destruct (category t) as [c|]; [|cbn; lia].
  destruct (JS.truthy (Some c)); [|lia].
  pose proof (list_sum_mapSet c (getCount c m + 1) m) as Hs.
  unfold getCount in *. lia.
Qed.

Lemma list_sum_categories l m :
  list_sum (List.map snd (fold_left Tools.countCategory l m)) =
  (list_sum (List.map snd m) + Tools.count hasCategory l)%nat.
Proof.
  revert m. unfold Tools.count. induction l as [|t l IH]; intros m.
  - cbn [fold_left List.filter length]. lia.
  - cbn [fold_left List.filter]. rewrite IH, list_sum_countCategory.
    destruct (hasCategory t); cbn [length]; lia.
Qed.

Lemma list_sum_Permutation (l l' : list nat) :
  Permutation l l' -> list_sum l = list_sum l'.
Proof. induction 1; unfold list_sum in *; cbn in *; lia. Qed.

(** X21.  The category counts the statistics show add up to the number of
    tasks that carry a category; a task without one, or with an empty
    one, is counted under no category. *)
Theorem category_counts_add_up `{Intl} (l : list Task) :
  list_sum (List.map snd (Tools.sortedCategories l)) = Tools.count hasCategory l /\
  (list_sum (List.map snd (Tools.sortedCategories l)) <= length l)%nat /\
  length (Tools.sortedCategories l) = length (Tools.categories l).
Proof.
  pose proof (sort_Permutation (fun a b => localeCompare (fst a) (fst b))
                (Tools.categories l)) as Hperm.
  fold (Tools.sortedCategories l) in Hperm.
  assert (Hsum : list_sum (List.map snd (Tools.sortedCategories l)) =
                 Tools.count hasCategory l).
  { rewrite (list_sum_Permutation _ _ (Permutation_map snd Hperm)).
    unfold Tools.categories. now rewrite list_sum_categories. }
  split; [exact Hsum|]. split; [rewrite Hsum; apply count_le|].
  now apply Permutation_length.
Qed.

(** ** Validation of an update and the answer of a listing *)

Lemma updateTask_issues (args : UpdateTaskSchema.input) :
  UpdateTaskSchema.issues args = [] <->
  (8 <= String.length (UpdateTaskSchema.taskId args))%nat /\
  forall d, UpdateTaskSchema.dueDate args = Some d -> JS.matchesDate d = true.
Proof.
  unfold UpdateTaskSchema.issues. rewrite <- checkDate_ok. split.
  - intros [Hmin Hdate]%app_eq_nil. split; [|exact Hdate].
    unfold checkMin in Hmin.
    destruct (Nat.leb_spec 8 (String.length (UpdateTaskSchema.taskId args)));
      [assumption|discriminate].
  - intros [Hlen ->]. now rewrite (checkMin_long 8 _ _ Hlen).
Qed.

(** X22.  Given arguments whose fields are of the kinds the schema names
    (strings, and a priority and a status that, when given, are among
    the values of their enumerations), an update is accepted exactly
    when its task id has at least eight characters and its due date, if
    given, has the shape [YYYY-MM-DD].  A rejected update throws the validation error with the message of
    each violated constraint, before anything is loaded: the world is
    as before, also when the id would have resolved a task. *)
Theorem updateTask_rejects_invalid `{Intl} (env : Env) (w : World)
    (args : UpdateTaskSchema.input) :
  let valid :=
    (8 <= String.length (UpdateTaskSchema.taskId args))%nat /\
    forall d, UpdateTaskSchema.dueDate args = Some d -> JS.matchesDate d = true in
  (valid -> exists result w1, Tools.updateTask args env w = (Return result, w1)) /\
  (~ valid ->
   UpdateTaskSchema.issues args <> [] /\
   Tools.updateTask args env w = (Throw (ZodError (UpdateTaskSchema.issues args)), w)).
Proof.
  intros valid. subst valid. rewrite <- updateTask_issues. split.
  - intros Hi.
    destruct (JS.findIndex (Tools.matchesId (UpdateTaskSchema.taskId args)) (stored w))
      as [i|] eqn:Hfind.
    + destruct (findIndex_Some _ _ _ Hfind) as (task & Hlook & _).
      destruct (updateTask_found env w args i task Hi Hfind Hlook) as (w1 & _ & ->).
      now eexists _, _.
    + destruct (updateTask_missing env w args Hi Hfind) as (w1 & _ & _ & ->).
      now eexists _, _.
  - intros Hi. split; [exact Hi|].
    destruct (parsed_cases (UpdateTaskSchema.issues args) args) as [[Hok _]|[_ Hp]];
      [contradiction|].
    unfold Tools.updateTask, bind, UpdateTaskSchema.parse. now rewrite Hp.
Qed.

Lemma updateTask_rejects_invalid_witness :
  let args :=
    {| UpdateTaskSchema.taskId := "7f3e9a10"; UpdateTaskSchema.title := None;
       UpdateTaskSchema.description := None; UpdateTaskSchema.priority := None;
       UpdateTaskSchema.category := None; UpdateTaskSchema.dueDate := Some "2025-1-1";
       UpdateTaskSchema.status := Some completed |} in
  Tools.updateTask args Sample.env (Sample.world [Sample.t2]) =
  (Throw (ZodError ["Date must be YYYY-MM-DD"]), Sample.world [Sample.t2]).
Proof.
  intros args.
  destruct (updateTask_rejects_invalid Sample.env (Sample.world [Sample.t2]) args)
    as [_ Hbad].
  destruct Hbad as [_ Hthrow]; [|exact Hthrow].
  intros [_ Hdate]. specialize (Hdate "2025-1-1" eq_refl). discriminate.
Defined.

(** Three filters in a row, each of which may be switched off, keep what
    passes those that are on. *)
Lemma filters_fuse {A} (b1 b2 b3 : bool) (p q r : A -> bool) (l : list A) :
  (if b3 then List.filter r else fun l => l)
    ((if b2 then List.filter q else fun l => l)
       ((if b1 then List.filter p else fun l => l) l)) =
  List.filter
    (fun x => (if b1 then p x else true) && (if b2 then q x else true) &&
              (if b3 then r x else true)) l.
Proof.
  destruct b1, b2, b3; induction l as [|x l IH]; cbn in *; try reflexivity;
    destruct (p x) eqn:Hp, (q x) eqn:Hq, (r x) eqn:Hr; cbn;
    rewrite ?Hp, ?Hq, ?Hr; cbn; rewrite ?Hq, ?Hr; cbn; rewrite ?Hr; cbn;
    congruence.
Qed.

Section Listing.
Context `{Intl}.

Lemma Counted_passes (validated : ListTasksSchema.output) (l : list Task) :
  Counted (passes validated) l (length (Tools.applyFilters validated l)).
Proof.
  set (byStatus := fun t =>
         match ListTasksSchema.status' validated with
         | All => true
         | Only s => Tools.hasStatus s t
         end).
  set (byPriority := fun t =>
         match ListTasksSchema.priority' validated with
         | All => true
         | Only p => Tools.hasPriority p t
         end).
  set (byCategory := fun t =>
         if JS.truthy (ListTasksSchema.category' validated)
         then Tools.sameCategory
                (JS.orElse (ListTasksSchema.category' validated) EmptyString) t
         else true).
  assert (Heq : Tools.applyFilters validated l =
                List.filter (fun t => byStatus t && byPriority t && byCategory t) l).
  { unfold Tools.applyFilters, byStatus, byPriority, byCategory.
    destruct (JS.truthy _), (ListTasksSchema.status' validated),
      (ListTasksSchema.priority' validated);
      first
        [ exact (filters_fuse true true true _ _ _ l)
        | exact (filters_fuse true false true _ (fun _ => true) _ l)
        | exact (filters_fuse false true true (fun _ => true) _ _ l)
        | exact (filters_fuse false false true (fun _ => true) (fun _ => true) _ l)
        | exact (filters_fuse true true false _ _ (fun _ => true) l)
        | exact (filters_fuse true false false _ (fun _ => true) (fun _ => true) l)
        | exact (filters_fuse false true false (fun _ => true) _ (fun _ => true) l)
        | exact (filters_fuse false false false (fun _ => true) (fun _ => true)
                   (fun _ => true) l) ]. }
  rewrite Heq. apply (Counted_count (passes validated)). intros t.
  unfold passes, byStatus, byPriority, byCategory.
  rewrite !andb_true_iff.
  assert (Hs : match ListTasksSchema.status' validated with
               | All => true
               | Only s => Tools.hasStatus s t
               end = true <->
               match ListTasksSchema.status' validated with
               | All => True
               | Only s => status t = s
               end).
  { destruct (ListTasksSchema.status' validated); [apply hasStatus_iff|tauto]. }
  assert (Hp : match ListTasksSchema.priority' validated with
               | All => true
               | Only p => Tools.hasPriority p t
               end = true <->
               match ListTasksSchema.priority' validated with
               | All => True
               | Only p => priority t = p
               end).
  { destruct (ListTasksSchema.priority' validated); [apply hasPriority_iff|tauto]. }
  rewrite Hs, Hp.
  assert (Hc : (if JS.truthy (ListTasksSchema.category' validated)
                then Tools.sameCategory
                       (JS.orElse (ListTasksSchema.category' validated) EmptyString) t
                else true) = true <->
               match ListTasksSchema.category' validated with
               | Some wanted =>
                   wanted = EmptyString \/
                   exists c, category t = Some c /\ toLowerCase c = toLowerCase wanted
               | None => True
               end).
  { destruct (ListTasksSchema.category' validated) as [wanted|]; cbn; [|tauto].
    destruct (String.eqb_spec wanted EmptyString) as [->|Hw]; cbn; [tauto|].
    unfold Tools.sameCategory. destruct (category t) as [c|].
    - rewrite String.eqb_eq. split.
      + intros He. right. now exists c.
      + intros [Hw'|(c' & [= <-] & He)]; [contradiction|exact He].
    - split; [discriminate|]. intros [Hw'|(c & Hc & _)]; [contradiction|discriminate]. }
  rewrite Hc. tauto.
Qed.
End Listing.

(** X23.  The answer of a listing counts the tasks that pass the filters,
    a filter left out counting as [all]: it is the no-tasks text exactly
    when none passes, and else the text below, whose header carries
    their number, followed by the tasks in the order of the listing and
    by the summary line.  The summary counts the whole collection,
    whatever the filters: its three numbers are the numbers of stored
    tasks that are pending, in progress and completed, and add up to
    the size of the collection. *)
Theorem listTasks_counts_matches `{Intl} (env : Env) (w : World)
    (args : option ListTasksSchema.input) :
  let validated :=
    {| ListTasksSchema.status' :=
         match args with
         | Some {| ListTasksSchema.status := Some s |} => s
         | _ => All
         end;
       ListTasksSchema.priority' :=
         match args with
         | Some {| ListTasksSchema.priority := Some p |} => p
         | _ => All
         end;
       ListTasksSchema.category' :=
         match args with
         | Some a => ListTasksSchema.category a
         | None => None
         end |} in
  exists nPassing nPending nInProgress nCompleted : nat,
    Counted (passes validated) (stored w) nPassing /\
    Counted (fun t => status t = pending) (stored w) nPending /\
    Counted (fun t => status t = in_progress) (stored w) nInProgress /\
    Counted (fun t => status t = completed) (stored w) nCompleted /\
    (nPending + nInProgress + nCompleted = length (stored w))%nat /\
    (nPassing = 0%nat ->
     fst (Tools.listTasks args env w) =
     Return (textResult "No tasks found matching the criteria.")) /\
    (nPassing <> 0%nat ->
     fst (Tools.listTasks args env w) =
     Return (textResult
               ("📋 Found " +:+ JS.showNat nPassing +:+ " task(s):" +:+
                nl +:+ nl +:+
                fold_left (fun result task => result +:+ formatTask task +:+ nl)
                  (Tools.listed validated (stored w)) EmptyString +:+
                nl +:+ "📊 Summary: " +:+ JS.showNat nPending +:+
                " pending | " +:+ JS.showNat nInProgress +:+
                " in progress | " +:+ JS.showNat nCompleted +:+
                " completed"))).
Proof.
  intros validated.
  pose proof (listTasks_run env w args) as Hrun. cbn zeta in Hrun.
  fold validated in Hrun.
  exists (length (Tools.applyFilters validated (stored w))),
         (Tools.count (Tools.hasStatus pending) (stored w)),
         (Tools.count (Tools.hasStatus in_progress) (stored w)),
         (Tools.count (Tools.hasStatus completed) (stored w)).
  split; [apply Counted_passes|].
  split; [apply Counted_count; intros t; apply Status_eqb_eq|].
  split; [apply Counted_count; intros t; apply Status_eqb_eq|].
  split; [apply Counted_count; intros t; apply Status_eqb_eq|].
  split; [symmetry; apply count_by_status|].
  split.
  - intros Hnone. rewrite Hrun, Hnone. reflexivity.
  - intros Hsome. rewrite Hrun.
    destruct (Nat.eqb_spec (length (Tools.applyFilters validated (stored w))) 0)
      as [Hz|_]; [contradiction|].
    unfold Tools.listed.
    rewrite (Permutation_length
               (sort_Permutation Tools.compareTasks
                  (Tools.applyFilters validated (stored w)))).
    reflexivity.
Qed.

Lemma listTasks_counts_matches_witness :
  let args :=
    Some {| ListTasksSchema.status := Some (Only completed);
            ListTasksSchema.priority := None;
            ListTasksSchema.category := Some "WORK" |} in
  let w := Sample.world [Sample.t1; Sample.t2; Sample.t3] in
  let validated :=
    {| ListTasksSchema.status' := Only completed; ListTasksSchema.priority' := All;
       ListTasksSchema.category' := Some "WORK" |} in
  Counted (passes validated) (stored w) 1 /\
  exists nPending nInProgress nCompleted : nat,
    (nPending + nInProgress + nCompleted = 3)%nat /\
    fst (Tools.listTasks args Sample.env w) =
    Return (textResult
              ("📋 Found " +:+ JS.showNat 1 +:+ " task(s):" +:+ nl +:+ nl +:+
               fold_left (fun result task => result +:+ formatTask task +:+ nl)
                 (Tools.listed validated (stored w)) EmptyString +:+
               nl +:+ "📊 Summary: " +:+ JS.showNat nPending +:+
               " pending | " +:+ JS.showNat nInProgress +:+
               " in progress | " +:+ JS.showNat nCompleted +:+
               " completed")).
Proof.
  intros args w validated.
  assert (H1 : Counted (passes validated) (stored w) 1)
    by exact (Counted_passes validated (stored w)).
  split; [exact H1|].
  destruct (listTasks_counts_matches Sample.env w args)
    as (n & np & ni & nc & Hn & _ & _ & _ & Hsum & _ & Hsome).
  assert (Hone : n = 1%nat) by exact (Counted_unique _ _ _ _ Hn H1).
  subst n.
  exists np, ni, nc. split; [exact Hsum|].
  apply Hsome. discriminate.
Defined.
